(** * typestep: compiling a typed pipeline into a Step Functions chain

    A shallow embedding of [typestep.go] (github.com/fogfish/typestep):
    the morphism constructors [From], [Join], [Lift], [LiftP], [Wrap],
    [Unit], [ToQueue], [ToEventBus], and the [typeStep] visitor that
    walks the pipeline syntax tree and assembles the chain of states,
    the state machine and the trigger rule.

    Layout:
    - [sha256], [hex]   the two Go standard packages used for naming;
    - [cdk]             the values handed to the AWS CDK constructs;
    - [duct]            the syntax tree, the algebra and the traversal of
                        the duct package;
    - package typestep  the source file itself, function by function;
    - the vocabulary of the properties, then the properties. *)

From Stdlib Require Import ZArith List String Ascii Lia Bool.
From Stdlib.Strings Require Import Byte.
From stdpp Require Import base tactics option list strings.

Import ListNotations.
Set Warnings "-register-all".
Local Open Scope Z_scope.

(* ===================================================================== *)
(** ** crypto/sha256 and encoding/hex *)
(* ===================================================================== *)

(** [sha256.Sum256] follows FIPS 180-4. Words are 32-bit values held in
    [Z], every addition is reduced modulo 2^32. The round constants are
    not tabulated: they are recomputed from their definition (fractional
    bits of the square and cube roots of the first primes). *)
Module sha256.

Definition wrap32 (x : Z) : Z := x mod 2 ^ 32.

Definition add32 (x y : Z) : Z := wrap32 (x + y).

Definition rotr (n x : Z) : Z :=
  Z.lor (Z.shiftr x n) (wrap32 (Z.shiftl x (32 - n))).

Definition not32 (x : Z) : Z := Z.lxor x (2 ^ 32 - 1).

Definition Ch (x y z : Z) : Z :=
  Z.lxor (Z.land x y) (Z.land (not32 x) z).

Definition Maj (x y z : Z) : Z :=
  Z.lxor (Z.lxor (Z.land x y) (Z.land x z)) (Z.land y z).

Definition bigsigma0 (x : Z) : Z :=
  Z.lxor (Z.lxor (rotr 2 x) (rotr 13 x)) (rotr 22 x).

Definition bigsigma1 (x : Z) : Z :=
  Z.lxor (Z.lxor (rotr 6 x) (rotr 11 x)) (rotr 25 x).

Definition smallsigma0 (x : Z) : Z :=
  Z.lxor (Z.lxor (rotr 7 x) (rotr 18 x)) (Z.shiftr x 3).

Definition smallsigma1 (x : Z) : Z :=
  Z.lxor (Z.lxor (rotr 17 x) (rotr 19 x)) (Z.shiftr x 10).

(** The first 64 primes (the 64th is 311), by trial division. *)
Definition is_prime (n : nat) : bool :=
  forallb (fun d => negb (Nat.eqb (Nat.modulo n d) 0)) (seq 2 (n - 2)).

Definition primes : list Z :=
  map Z.of_nat (firstn 64 (filter is_prime (seq 2 310))).

(** [iroot k n]: the largest [r < 2^36] with [r^k <= n], bit by bit. *)
Definition iroot (k n : Z) : Z :=
  fold_left
    (fun r i => let c := r + 2 ^ Z.of_nat i in if c ^ k <=? n then c else r)
    (rev (seq 0 36)) 0.

(** Initial hash value: 32 fractional bits of the square roots of the
    first eight primes. *)
Definition init : list Z :=
  Eval vm_compute in
    map (fun p => wrap32 (iroot 2 (p * 2 ^ 64))) (firstn 8 primes).

(** Round constants: 32 fractional bits of the cube roots of the first
    sixty-four primes. *)
Definition K : list Z :=
  Eval vm_compute in
    map (fun p => wrap32 (iroot 3 (p * 2 ^ 96))) primes.

Definition byteZ (b : byte) : Z := Z.of_N (Byte.to_N b).

Definition Zbyte (z : Z) : byte :=
  match Byte.of_N (Z.to_N (z mod 256)) with
  | Some b => b
  | None => x00
  end.

(** Big-endian encoding of [z] on [n] bytes. *)
Fixpoint be_bytes (n : nat) (z : Z) : list byte :=
  match n with
  | O => []
  | S m => Zbyte (Z.shiftr z (8 * Z.of_nat m)) :: be_bytes m z
  end.

Definition be_word (bs : list byte) : Z :=
  fold_left (fun acc b => acc * 256 + byteZ b) bs 0.

(** Padding: the bit 1, then zeros up to 56 modulo 64, then the length
    of the message in bits on 8 bytes. *)
Definition pad (msg : list byte) : list byte :=
  let len := Z.of_nat (length msg) in
  let zeros := Z.to_nat ((55 - len) mod 64) in
  msg ++ x80 :: repeat x00 zeros ++ be_bytes 8 (8 * len).

Fixpoint words (n : nat) (bs : list byte) : list Z :=
  match n with
  | O => []
  | S m => be_word (firstn 4 bs) :: words m (skipn 4 bs)
  end.

(** Message schedule, most recent word first. *)
Fixpoint schedule (n : nat) (rev_w : list Z) : list Z :=
  match n with
  | O => rev_w
  | S m =>
      let wt :=
        add32 (add32 (smallsigma1 (nth 1 rev_w 0)) (nth 6 rev_w 0))
              (add32 (smallsigma0 (nth 14 rev_w 0)) (nth 15 rev_w 0)) in
      schedule m (wt :: rev_w)
  end.

Record regs : Type := Regs { ra : Z; rb : Z; rc : Z; rd : Z;
                             re : Z; rf : Z; rg : Z; rh : Z }.

Definition round (r : regs) (kw : Z * Z) : regs :=
  let t1 := add32 (add32 (add32 (rh r) (bigsigma1 (re r)))
                         (add32 (Ch (re r) (rf r) (rg r)) (fst kw)))
                  (snd kw) in
  let t2 := add32 (bigsigma0 (ra r)) (Maj (ra r) (rb r) (rc r)) in
  Regs (add32 t1 t2) (ra r) (rb r) (rc r) (add32 (rd r) t1) (re r) (rf r) (rg r).

Definition regs_of (h : list Z) : regs :=
  Regs (nth 0 h 0) (nth 1 h 0) (nth 2 h 0) (nth 3 h 0)
       (nth 4 h 0) (nth 5 h 0) (nth 6 h 0) (nth 7 h 0).

Definition list_of (r : regs) : list Z :=
  [ra r; rb r; rc r; rd r; re r; rf r; rg r; rh r].

Definition block (h : list Z) (bs : list byte) : list Z :=
  let w := rev (schedule 48 (rev (words 16 bs))) in
  let r := fold_left round (combine K w) (regs_of h) in
  map (fun p => add32 (fst p) (snd p)) (combine h (list_of r)).

Fixpoint blocks (n : nat) (h : list Z) (bs : list byte) : list Z :=
  match n with
  | O => h
  | S m => blocks m (block h (firstn 64 bs)) (skipn 64 bs)
  end.

(** [sha256.Sum256(data)]: the 32 bytes of the digest. *)
Definition Sum256 (data : list byte) : list byte :=
  let p := pad data in
  flat_map (be_bytes 4) (blocks (Nat.div (length p) 64) init p).

End sha256.

Module hex.

Definition digit (z : Z) : ascii :=
  ascii_of_N (Z.to_N (if z <? 10 then 48 + z else 87 + z)).

(** [hex.EncodeToString(src)]: two lower-case digits per byte. *)
Fixpoint EncodeToString (src : list byte) : string :=
  match src with
  | [] => EmptyString
  | b :: rest =>
      let z := sha256.byteZ b in
      String (digit (z / 16)) (String (digit (z mod 16)) (EncodeToString rest))
  end.

End hex.

(** [[]byte(s)] *)
Definition bytes_of (s : string) : list byte := list_byte_of_string s.

(** [s[:n]] on a string at least [n] bytes long. *)
Fixpoint prefix (n : nat) (s : string) : string :=
  match n, s with
  | S m, String c rest => String c (prefix m rest)
  | _, _ => EmptyString
  end.


(* ===================================================================== *)
(** ** Values handed to the AWS CDK *)
(* ===================================================================== *)

(** The CDK is a collaborator: its constructs are kept as the values the
    compiler passes to them. A state is the record of its properties, a
    chain is the sequence of its states in [Next] order, and the scope
    ([constructs.Construct]) is the list of the children created in it.
    Whether the CDK accepts an identifier or a property (unique names in
    a scope, a non-empty definition body) is outside this development. *)
Module cdk.

Record IFunction : Type := { function_id : string }.

(** [queue_type] is the dynamic Go type of the handle, as printed by the
    verb [%T]. *)
Record IQueue : Type := { queue_type : string; queue_id : string }.

Record IEventBus : Type := { bus_id : string }.

(** [jsii.Number(v)]: the [float64] made from the Go [int] [v]. The
    conversion is kept symbolic, the box records the integer given. *)
Inductive Number : Type := jsii_Number (v : Z).

(** The states of [awsstepfunctions] and [awsstepfunctionstasks] that the
    compiler creates, with the properties it sets. [catches] lists the
    [AddCatch] calls: the handler chain and its [ResultPath]. *)
Inductive State : Type :=
| NewLambdaInvoke (id : string) (InputPath : string)
    (LambdaFunction : IFunction) (catches : list (list State * string))
| NewSqsSendMessage (id : string) (Queue : IQueue) (MessageBody : string)
| NewEventBridgePutEvents (id : string) (Detail DetailType Source : string)
    (EventBus : option IEventBus)
| NewFail (id : string)
| NewMap (id : string) (ItemsPath : string) (MaxConcurrency : Number)
    (ItemProcessor : option (list State)).

Definition Chain : Type := list State.

(** [awsstepfunctions.Chain_Start(f)] *)
Definition Chain_Start (f : State) : Chain := [f].

(** [c.Next(f)] *)
Definition Next (c : Chain) (f : State) : Chain := c ++ [f].

(** [*f.Node().Id()] *)
Definition Id (f : State) : string :=
  match f with
  | NewLambdaInvoke id _ _ _ => id
  | NewSqsSendMessage id _ _ => id
  | NewEventBridgePutEvents id _ _ _ _ => id
  | NewFail id => id
  | NewMap id _ _ _ => id
  end.

Record EventPattern : Type := { DetailType : list string }.

Record StateMachine : Type :=
  { machine_id : string; DefinitionBody : option Chain }.

Record Rule : Type :=
  { rule_id : string;
    rule_EventBus : IEventBus;
    rule_EventPattern : option EventPattern;
    rule_targets : list StateMachine }.

(** A child of the scope. *)
Inductive Child : Type :=
| ChildState (id : string)
| ChildStateMachine (m : StateMachine)
| ChildRule (r : Rule).

End cdk.

(* ===================================================================== *)
(** ** Payloads of the nodes *)
(* ===================================================================== *)

(** [type source struct] *)
Record source : Type :=
  { source_cat : list string; source_bus : option cdk.IEventBus }.

(** [type lambda struct] *)
Record lambda : Type :=
  { lambda_concurency : Z; lambda_f : cdk.IFunction }.

(** [type eventbus struct] *)
Record eventbus : Type :=
  { eventbus_bus : option cdk.IEventBus;
    eventbus_source : string;
    eventbus_cat : list string }.

(** A value of Go's [any], by dynamic type: the three structs above, a
    queue handle (the only values implementing [awssqs.IQueue]), [nil],
    or a value of some other type named [T]. *)
Inductive any : Type :=
| any_nil
| any_lambda (v : lambda)
| any_source (v : source)
| any_eventbus (v : eventbus)
| any_IQueue (v : cdk.IQueue)
| any_other (T : string).

(** What [fmt] prints for the verb [%T]. *)
Definition typeName (v : any) : string :=
  match v with
  | any_nil => "<nil>"
  | any_lambda _ => "typestep.lambda"
  | any_source _ => "typestep.source"
  | any_eventbus _ => "typestep.eventbus"
  | any_IQueue q => cdk.queue_type q
  | any_other T => T
  end.

(** The Go types that instantiate the type parameters of the algebra. *)
Inductive gotype : Type :=
| TNamed (name : string)
| TSlice (elem : gotype)
| TVoid.

(** The outcome of a callback: it returned [nil], it returned an error
    (with the state as it left it), or it panicked. *)
Inductive result (S : Type) : Type :=
| Ok (s : S)
| Err (e : string) (s : S)
| Panic (why : string).

Arguments Ok {S} s.
Arguments Err {S} e s.
Arguments Panic {S} why.

(* ===================================================================== *)
(** ** github.com/fogfish/golem/duct *)
(* ===================================================================== *)

(** Modelled from the spec: the duct package (the syntax tree of a
    morphism, its constructors and its traversal) is imported by
    [typestep.go] and is not among the sources. The node types carry the
    fields the visitor reads ([Seq], [F], [Source], [Type], [Target]);
    the constructors and the call sequence follow sections 3, 4.1 and
    4.2 of the specification. *)
Module duct.

Record AstFrom : Type := { From_Type : string; Source : any }.

Record AstMap : Type := { F : any }.

Record AstYield : Type := { Yield_Type : string; Target : any }.

Inductive Ast : Type :=
| NodeFrom (n : AstFrom)
| NodeMap (n : AstMap)
| NodeSeq (children : list Ast)
| NodeYield (n : AstYield).

Record AstSeq : Type := { Seq : list Ast }.

(** [duct.Visitor] *)
Class Visitor (V : Type) : Type :=
  { OnEnterMorphism : Z -> AstSeq -> V -> result V;
    OnLeaveMorphism : Z -> AstSeq -> V -> result V;
    OnEnterSeq : Z -> AstSeq -> V -> result V;
    OnLeaveSeq : Z -> AstSeq -> V -> result V;
    OnEnterMap : Z -> AstMap -> V -> result V;
    OnLeaveMap : Z -> AstMap -> V -> result V;
    OnEnterFrom : Z -> AstFrom -> V -> result V;
    OnLeaveFrom : Z -> AstFrom -> V -> result V;
    OnEnterYield : Z -> AstYield -> V -> result V;
    OnLeaveYield : Z -> AstYield -> V -> result V }.

(** One callback invocation of the traversal. *)
Inductive Call : Type :=
| EnterMorphism (depth : Z) (node : AstSeq)
| LeaveMorphism (depth : Z) (node : AstSeq)
| EnterSeq (depth : Z) (node : AstSeq)
| LeaveSeq (depth : Z) (node : AstSeq)
| EnterMap (depth : Z) (node : AstMap)
| LeaveMap (depth : Z) (node : AstMap)
| EnterFrom (depth : Z) (node : AstFrom)
| LeaveFrom (depth : Z) (node : AstFrom)
| EnterYield (depth : Z) (node : AstYield)
| LeaveYield (depth : Z) (node : AstYield).

Definition invoke {V : Type} `{Visitor V} (c : Call) (v : V) : result V :=
  match c with
  | EnterMorphism d n => OnEnterMorphism d n v
  | LeaveMorphism d n => OnLeaveMorphism d n v
  | EnterSeq d n => OnEnterSeq d n v
  | LeaveSeq d n => OnLeaveSeq d n v
  | EnterMap d n => OnEnterMap d n v
  | LeaveMap d n => OnLeaveMap d n v
  | EnterFrom d n => OnEnterFrom d n v
  | LeaveFrom d n => OnLeaveFrom d n v
  | EnterYield d n => OnEnterYield d n v
  | LeaveYield d n => OnLeaveYield d n v
  end.

(** Modelled from the spec: the calls are made in order and the first
    failure ends the traversal (section 4.2, "any failure aborts the
    entire compilation immediately"). *)
Fixpoint run {V : Type} `{Visitor V} (cs : list Call) (v : V) : result V :=
  match cs with
  | [] => Ok v
  | c :: rest =>
      match invoke c v with
      | Ok v' => run rest v'
      | Err e v' => Err e v'
      | Panic why => Panic why
      end
  end.

(** Modelled from the spec: the call sequence of a node at nesting level
    [depth] (section 4.2): enter and leave for a leaf, the children of a
    [Seq] between its enter and its leave. *)
Fixpoint calls (depth : Z) (n : Ast) : list Call :=
  match n with
  | NodeFrom x => [EnterFrom depth x; LeaveFrom depth x]
  | NodeMap x => [EnterMap depth x; LeaveMap depth x]
  | NodeSeq l =>
      EnterSeq depth {| Seq := l |}
        :: flat_map (calls (depth + 1)) l ++ [LeaveSeq depth {| Seq := l |}]
  | NodeYield x => [EnterYield depth x; LeaveYield depth x]
  end.

(** Modelled from the spec: the call sequence of a whole pipeline, the
    nodes of the root between [OnEnterMorphism] and [OnLeaveMorphism]. *)
Definition trace (root : AstSeq) : list Call :=
  EnterMorphism 0 root :: flat_map (calls 1) (Seq root) ++ [LeaveMorphism 0 root].

(** Modelled from the spec: the name of a type as the nodes record it
    (the trigger rule of [From<Account>] filters on ["Account"]). *)
Fixpoint nameOf (t : gotype) : string :=
  match t with
  | TNamed n => n
  | TSlice e => "[]" +:+ nameOf e
  | TVoid => "Void"
  end.

(** Modelled from the spec: [duct.Morphism[A, B]], with the constructors
    of section 4.1; a morphism is the term that built it, and the Go
    type parameters are the indices. *)
Inductive Morphism : gotype -> gotype -> Type :=
| From (A : gotype) (source : any) : Morphism A A
| Join {A B C : gotype} (f : any) (m : Morphism A B) : Morphism A C
| LiftF {A B C : gotype} (f : any) (m : Morphism A (TSlice B)) : Morphism A C
| WrapF {A B : gotype} (m : Morphism A (TSlice B)) : Morphism A B
| Unit {A B : gotype} (m : Morphism A B) : Morphism A (TSlice B)
| Yield {A B : gotype} (target : any) (m : Morphism A B) : Morphism A TVoid.

(** Adds a node to the innermost open level. *)
Definition push (n : Ast) (levels : list (list Ast)) : list (list Ast) :=
  match levels with
  | [] => [[n]]
  | inner :: outer => (inner ++ [n]) :: outer
  end.

(** Modelled from the spec: the open nesting levels of a morphism,
    innermost first. [LiftF] and [WrapF] open a level (seeded by the
    lifted function, or empty), [Unit] closes the innermost one, the
    others add a node to it. *)
Fixpoint levels {A B : gotype} (m : Morphism A B) : list (list Ast) :=
  match m with
  | From A s => [[NodeFrom {| From_Type := nameOf A; Source := s |}]]
  | Join f m' => push (NodeMap {| F := f |}) (levels m')
  | LiftF f m' => [NodeMap {| F := f |}] :: levels m'
  | WrapF m' => [] :: levels m'
  | Unit m' =>
      match levels m' with
      | inner :: outer :: rest => (outer ++ [NodeSeq inner]) :: rest
      | other => other
      end
  | @Yield _ B t m' =>
      push (NodeYield {| Yield_Type := nameOf B; Target := t |}) (levels m')
  end.

(** Closes the levels still open. *)
Fixpoint close (inner : list Ast) (outer : list (list Ast)) : list Ast :=
  match outer with
  | [] => inner
  | o :: rest => close (o ++ [NodeSeq inner]) rest
  end.

Definition root {A B : gotype} (m : Morphism A B) : AstSeq :=
  match levels m with
  | [] => {| Seq := [] |}
  | inner :: outer => {| Seq := close inner outer |}
  end.

(** [m.Apply(v)] *)
Definition Apply {A B : gotype} {V : Type} `{Visitor V}
    (m : Morphism A B) (v : V) : result V :=
  run (trace (root m)) v.

End duct.

(* ===================================================================== *)
(** ** package typestep *)
(* ===================================================================== *)

Import cdk.

(** [type F[A, B any] interface]: the method [F()] of a typed function. *)
Record F (A B : gotype) : Type := { F_F : IFunction }.

Arguments F_F {A B} _.

(** [func From] *)
Definition From (A : gotype) (in_ : option IEventBus) (cat : list string)
    : duct.Morphism A A :=
  duct.From A (any_source {| source_cat := cat; source_bus := in_ |}).

(** [func Join] *)
Definition Join {A B C : gotype} (f : F B C) (m : duct.Morphism A B)
    : duct.Morphism A C :=
  let fn := {| lambda_concurency := 1; lambda_f := F_F f |} in
  duct.Join (any_lambda fn) m.

(** [func Lift] *)
Definition Lift {A B C : gotype} (f : F B C) (m : duct.Morphism A (TSlice B))
    : duct.Morphism A C :=
  let fn := {| lambda_concurency := 1; lambda_f := F_F f |} in
  duct.LiftF (any_lambda fn) m.

(** [func LiftP] *)
Definition LiftP {A B C : gotype} (n : Z) (f : F B C)
    (m : duct.Morphism A (TSlice B)) : duct.Morphism A C :=
  let fn := {| lambda_concurency := n; lambda_f := F_F f |} in
  duct.LiftF (any_lambda fn) m.

(** [func Wrap] *)
Definition Wrap {A B : gotype} (m : duct.Morphism A (TSlice B))
    : duct.Morphism A B :=
  duct.WrapF m.

(** [func Unit] *)
Definition Unit {A B : gotype} (m : duct.Morphism A B)
    : duct.Morphism A (TSlice B) :=
  duct.Unit m.

(** [func ToQueue] *)
Definition ToQueue {A B : gotype} (q : IQueue) (m : duct.Morphism A B)
    : duct.Morphism A TVoid :=
  duct.Yield (any_IQueue q) m.

(** [func ToEventBus] *)
Definition ToEventBus {A B : gotype} (source : string)
    (bus : option IEventBus) (m : duct.Morphism A B) (cat : list string)
    : duct.Morphism A TVoid :=
  duct.Yield
    (any_eventbus
       {| eventbus_bus := bus; eventbus_source := source; eventbus_cat := cat |})
    m.

(** [type TypeStepProps struct] *)
Record TypeStepProps : Type :=
  { props_DeadLetterQueue : option IQueue;
    props_SeqConcurrency : option Number }.

(** [type typeStep struct]. [Construct] is the list of the children
    created in the scope of the builder, oldest first. *)
Record typeStep : Type :=
  { Construct : list Child;
    DeadLetterQueue : option IQueue;
    bus : option IEventBus;
    eventPattern : option EventPattern;
    args : string;
    stack : list (option Chain);
    names : list string }.

Definition set_Construct (c : list Child) (ts : typeStep) : typeStep :=
  {| Construct := c; DeadLetterQueue := DeadLetterQueue ts; bus := bus ts;
     eventPattern := eventPattern ts; args := args ts; stack := stack ts;
     names := names ts |}.

Definition set_source (b : option IEventBus) (p : option EventPattern)
    (ts : typeStep) : typeStep :=
  {| Construct := Construct ts; DeadLetterQueue := DeadLetterQueue ts;
     bus := b; eventPattern := p; args := args ts; stack := stack ts;
     names := names ts |}.

Definition set_args (a : string) (ts : typeStep) : typeStep :=
  {| Construct := Construct ts; DeadLetterQueue := DeadLetterQueue ts;
     bus := bus ts; eventPattern := eventPattern ts; args := a;
     stack := stack ts; names := names ts |}.

Definition set_stack (s : list (option Chain)) (ts : typeStep) : typeStep :=
  {| Construct := Construct ts; DeadLetterQueue := DeadLetterQueue ts;
     bus := bus ts; eventPattern := eventPattern ts; args := args ts;
     stack := s; names := names ts |}.

Definition set_names (n : list string) (ts : typeStep) : typeStep :=
  {| Construct := Construct ts; DeadLetterQueue := DeadLetterQueue ts;
     bus := bus ts; eventPattern := eventPattern ts; args := args ts;
     stack := stack ts; names := n |}.

(** A construct created in the scope of the builder becomes its child. *)
Definition create (c : Child) (ts : typeStep) : typeStep :=
  set_Construct (Construct ts ++ [c]) ts.

(** [l[i]] for a Go [int] index: [None] stands for the index out of
    range, on which Go panics. *)
Definition index {A : Type} (l : list A) (i : Z) : option A :=
  if i <? 0 then None else l !! Z.to_nat i.

(** [func NewTypeStep]: a fresh construct, one empty chain level. *)
Definition NewTypeStep (props : TypeStepProps) : typeStep :=
  {| Construct := [];
     DeadLetterQueue := props_DeadLetterQueue props;
     bus := None;
     eventPattern := None;
     args := "";
     stack := [None];
     names := [""] |}.

(** [func (ts *typeStep) append] *)
Definition append (f : State) (ts : typeStep) : result typeStep :=
  let tsal := Z.of_nat (length (stack ts)) - 1 in
  match index (stack ts) tsal with
  | None => Panic "index out of range"
  | Some last =>
      let chain :=
        match last with
        | None => Chain_Start f
        | Some c => Next c f
        end in
      let ts := set_stack (<[Z.to_nat tsal := Some chain]> (stack ts)) ts in
      match index (names ts) tsal with
      | None => Panic "index out of range"
      | Some name =>
          Ok (set_names (<[Z.to_nat tsal := name +:+ Id f]> (names ts)) ts)
      end
  end.

(** [func (ts *typeStep) OnEnterMorphism] *)
Definition OnEnterMorphism (depth : Z) (node : duct.AstSeq) (ts : typeStep)
    : result typeStep :=
  Ok ts.

(** [func (ts *typeStep) OnLeaveMorphism] *)
Definition OnLeaveMorphism (depth : Z) (node : duct.AstSeq) (ts : typeStep)
    : result typeStep :=
  if negb (Nat.eqb (length (stack ts)) 1) then
    Err "bad definition of compute pipeline" ts
  else
    match bus ts with
    | None => Err "undefined event source for compute pipeline" ts
    | Some b =>
        let states :=
          {| machine_id := "StateMachine";
             DefinitionBody := mjoin (index (stack ts) 0) |} in
        let ts := create (ChildStateMachine states) ts in
        let rule :=
          {| rule_id := "Rule";
             rule_EventBus := b;
             rule_EventPattern := eventPattern ts;
             rule_targets := [states] |} in
        Ok (create (ChildRule rule) ts)
    end.

(** [func (ts *typeStep) OnEnterSeq] *)
Definition OnEnterSeq (depth : Z) (node : duct.AstSeq) (ts : typeStep)
    : result typeStep :=
  let ts := set_stack (stack ts ++ [None]) ts in
  let ts := set_names (names ts ++ [""]) ts in
  Ok (set_args "$" ts).

(** The concurrency read from the first child of a [Seq] node: the two
    comma-ok type assertions keep the default when either fails. *)
Definition concurency_of (first : duct.Ast) : Z :=
  match first with
  | duct.NodeMap f =>
      match duct.F f with
      | any_lambda f => lambda_concurency f
      | _ => 1
      end
  | _ => 1
  end.

(** [func (ts *typeStep) OnLeaveSeq] *)
Definition OnLeaveSeq (depth : Z) (node : duct.AstSeq) (ts : typeStep)
    : result typeStep :=
  let last := Z.of_nat (length (stack ts)) - 1 in
  match index (names ts) last with
  | None => Panic "index out of range"
  | Some name =>
      let hash := sha256.Sum256 (bytes_of name) in
      let ihex := prefix 8 (hex.EncodeToString hash) in
      match duct.Seq node with
      | [] => Panic "index out of range"
      | first :: _ =>
          let concurency := concurency_of first in
          match index (stack ts) last with
          | None => Panic "index out of range"
          | Some sub =>
              let foreach :=
                NewMap ("Seq" +:+ ihex) "$.Payload" (jsii_Number concurency) sub in
              let ts := create (ChildState ("Seq" +:+ ihex)) ts in
              let ts := set_stack (take (Z.to_nat last) (stack ts)) ts in
              let ts := set_names (take (Z.to_nat last) (names ts)) ts in
              match append foreach ts with
              | Ok ts => Ok (set_args "$" ts)
              | other => other
              end
          end
      end
  end.

(** The catch branch of an invoke state: none without a dead-letter
    queue, else the message to the queue followed by the failure. *)
Definition dead_letter (q : option IQueue) (uuid : string)
    : list (list State * string) :=
  match q with
  | None => []
  | Some q =>
      let dlq := NewSqsSendMessage ("Try" +:+ uuid) q "$" in
      let err := NewFail ("Err" +:+ uuid) in
      [(Next (Chain_Start dlq) err, "$.error")]
  end.

(** [func (ts *typeStep) OnEnterMap] *)
Definition OnEnterMap (depth : Z) (node : duct.AstMap) (ts : typeStep)
    : result typeStep :=
  match duct.F node with
  | any_lambda f =>
      let uuid := function_id (lambda_f f) in
      let compute :=
        NewLambdaInvoke ("Map" +:+ uuid) (args ts) (lambda_f f)
          (dead_letter (DeadLetterQueue ts) uuid) in
      let ts := create (ChildState ("Map" +:+ uuid)) ts in
      let ts :=
        match DeadLetterQueue ts with
        | Some _ =>
            create (ChildState ("Err" +:+ uuid))
              (create (ChildState ("Try" +:+ uuid)) ts)
        | None => ts
        end in
      append compute ts
  | f => Err ("unkown compute type: " +:+ typeName f) ts
  end.

(** [func (ts *typeStep) OnLeaveMap] *)
Definition OnLeaveMap (depth : Z) (node : duct.AstMap) (ts : typeStep)
    : result typeStep :=
  Ok (set_args "$.Payload" ts).

(** [func (ts *typeStep) OnEnterFrom] *)
Definition OnEnterFrom (depth : Z) (node : duct.AstFrom) (ts : typeStep)
    : result typeStep :=
  match duct.Source node with
  | any_source f =>
      let pattern := {| DetailType := [duct.From_Type node] |} in
      let pattern :=
        if negb (Nat.eqb (length (source_cat f)) 0)
        then {| DetailType := source_cat f |}
        else pattern in
      Ok (set_args "$.detail" (set_source (source_bus f) (Some pattern) ts))
  | f => Err ("unkown input type: " +:+ typeName f) ts
  end.

(** [func (ts *typeStep) OnLeaveFrom] *)
Definition OnLeaveFrom (depth : Z) (node : duct.AstFrom) (ts : typeStep)
    : result typeStep :=
  Ok ts.

(** [func (ts *typeStep) OnEnterYield] *)
Definition OnEnterYield (depth : Z) (node : duct.AstYield) (ts : typeStep)
    : result typeStep :=
  match duct.Target node with
  | any_IQueue f =>
      let sink := NewSqsSendMessage "Sink" f (args ts) in
      append sink (create (ChildState "Sink") ts)
  | any_eventbus f =>
      let kind :=
        match eventbus_cat f with
        | [] => duct.Yield_Type node
        | c :: _ => c
        end in
      let sink :=
        NewEventBridgePutEvents "Sink" (args ts) kind (eventbus_source f)
          (eventbus_bus f) in
      append sink (create (ChildState "Sink") ts)
  | f => Err ("unkown reply type: " +:+ typeName f) ts
  end.

(** [func (ts *typeStep) OnLeaveYield] *)
Definition OnLeaveYield (depth : Z) (node : duct.AstYield) (ts : typeStep)
    : result typeStep :=
  Ok ts.

(** The builder implements [duct.Visitor]. *)
#[export] Instance typeStep_Visitor : duct.Visitor typeStep :=
  {| duct.OnEnterMorphism := OnEnterMorphism;
     duct.OnLeaveMorphism := OnLeaveMorphism;
     duct.OnEnterSeq := OnEnterSeq;
     duct.OnLeaveSeq := OnLeaveSeq;
     duct.OnEnterMap := OnEnterMap;
     duct.OnLeaveMap := OnLeaveMap;
     duct.OnEnterFrom := OnEnterFrom;
     duct.OnLeaveFrom := OnLeaveFrom;
     duct.OnEnterYield := OnEnterYield;
     duct.OnLeaveYield := OnLeaveYield |}.

(** [func StateMachine]: an error of the traversal becomes a panic. *)
Definition StateMachine {A B : gotype} (ts : typeStep) (m : duct.Morphism A B)
    : result typeStep :=
  match duct.Apply m ts with
  | Err e _ => Panic e
  | other => other
  end.

(* ===================================================================== *)
(** ** Vocabulary of the properties *)
(* ===================================================================== *)

(** The chain obtained by adding [f] to a chain level. *)
Definition grow (level : option Chain) (f : State) : Chain :=
  match level with
  | None => Chain_Start f
  | Some c => Next c f
  end.

(** The state added last to the innermost chain level. *)
Definition emitted (ts : typeStep) : option State :=
  match last (stack ts) with
  | Some (Some c) => last c
  | _ => None
  end.

(** The state a result carries, whether the callback failed or not. *)
Definition state_of {S : Type} (r : result S) : option S :=
  match r with
  | Ok s => Some s
  | Err _ s => Some s
  | Panic _ => None
  end.

(** The state machines and rules among the children of a scope. *)
Definition is_artifact (c : Child) : bool :=
  match c with
  | ChildState _ => false
  | _ => true
  end.

Definition artifacts (cs : list Child) : list Child :=
  List.filter is_artifact cs.

(** The identifiers of the states of a chain level, concatenated. *)
Definition concat_ids (level : option Chain) : string :=
  match level with
  | None => ""
  | Some c => foldr (fun s acc => Id s +:+ acc) "" c
  end.

(** The name [OnLeaveSeq] derives from an accumulated name. *)
Definition seq_name (name : string) : string :=
  "Seq" +:+ prefix 8 (hex.EncodeToString (sha256.Sum256 (bytes_of name))).

(** Number of [Seq] levels left open by a sequence of calls starting at
    [d] open levels; [None] if a level that is not open is left. *)
Fixpoint nesting (cs : list duct.Call) (d : nat) : option nat :=
  match cs with
  | [] => Some d
  | duct.EnterSeq _ _ :: rest => nesting rest (S d)
  | duct.LeaveSeq _ _ :: rest =>
      match d with
      | O => None
      | S d' => nesting rest d'
      end
  | _ :: rest => nesting rest d
  end.

(** The invoke state [OnEnterMap] builds for the lambda [f], and the
    children it creates in the scope. *)
Definition invoke_state (ts : typeStep) (f : lambda) : State :=
  NewLambdaInvoke ("Map" +:+ function_id (lambda_f f)) (args ts) (lambda_f f)
    (dead_letter (DeadLetterQueue ts) (function_id (lambda_f f))).

Definition invoke_children (q : option IQueue) (uuid : string) : list Child :=
  ChildState ("Map" +:+ uuid)
    :: match q with
       | Some _ => [ChildState ("Try" +:+ uuid); ChildState ("Err" +:+ uuid)]
       | None => []
       end.

(** The sink state [OnEnterYield] builds, if the target is recognised. *)
Definition sink_state (ts : typeStep) (node : duct.AstYield) : option State :=
  match duct.Target node with
  | any_IQueue q => Some (NewSqsSendMessage "Sink" q (args ts))
  | any_eventbus f =>
      Some (NewEventBridgePutEvents "Sink" (args ts)
              (match eventbus_cat f with
               | [] => duct.Yield_Type node
               | c :: _ => c
               end)
              (eventbus_source f) (eventbus_bus f))
  | _ => None
  end.

(** A state with as many names as chain levels, and at least one. *)
Definition parallel (ts : typeStep) : Prop :=
  length (stack ts) = length (names ts) /\ (1 <= length (stack ts))%nat.

(** The catch branches of a state. *)
Definition catches_of (s : State) : list (list State * string) :=
  match s with
  | NewLambdaInvoke _ _ _ cs => cs
  | _ => []
  end.

(** [within s t]: the state [s] is [t] or occurs below it, in the item
    processor of a map state or in the handler of a catch branch. *)
Inductive within (s : State) : State -> Prop :=
| within_here : within s s
| within_item id items mc sub t :
    In t sub -> within s t -> within s (NewMap id items mc (Some sub))
| within_catch id path f cs h rp t :
    In (h, rp) cs -> In t h -> within s t ->
    within s (NewLambdaInvoke id path f cs).

(** The states of the bodies of the state machines of a scope. *)
Definition machine_states (cs : list Child) : list State :=
  flat_map
    (fun c =>
       match c with
       | ChildStateMachine m => default [] (DefinitionBody m)
       | _ => []
       end) cs.

(** The states of the open chain levels. *)
Definition level_states (st : list (option Chain)) : list State :=
  flat_map (default []) st.

(** A node the callbacks accept: a recognised payload, and at least one
    child under every [Seq]. *)
Fixpoint recognised (n : duct.Ast) : bool :=
  match n with
  | duct.NodeFrom x =>
      match duct.Source x with any_source _ => true | _ => false end
  | duct.NodeMap x =>
      match duct.F x with any_lambda _ => true | _ => false end
  | duct.NodeSeq l =>
      match l with [] => false | _ => forallb recognised l end
  | duct.NodeYield x =>
      match duct.Target x with
      | any_IQueue _ | any_eventbus _ => true
      | _ => false
      end
  end.

(** Number of [From] and of [Yield] nodes, at any depth. *)
Fixpoint count_from (n : duct.Ast) : nat :=
  match n with
  | duct.NodeFrom _ => 1
  | duct.NodeSeq l => list_sum (map count_from l)
  | _ => 0
  end.

Fixpoint count_yield (n : duct.Ast) : nat :=
  match n with
  | duct.NodeYield _ => 1
  | duct.NodeSeq l => list_sum (map count_yield l)
  | _ => 0
  end.

(** The node visited last is a [Yield]. *)
Fixpoint ends_in_yield (n : duct.Ast) : bool :=
  match n with
  | duct.NodeYield _ => true
  | duct.NodeSeq l =>
      (fix go (l : list duct.Ast) : bool :=
         match l with
         | [] => false
         | [x] => ends_in_yield x
         | _ :: r => go r
         end) l
  | _ => false
  end.

(** A well-formed pipeline: the root begins with its only [From], bound
    to an event bus; it ends with its only [Yield]; every payload is
    recognised and no [Seq] is empty. *)
Definition well_formed (root : duct.AstSeq) : Prop :=
  exists ty src b body,
    duct.Seq root
      = duct.NodeFrom {| duct.From_Type := ty; duct.Source := any_source src |}
          :: body
    /\ source_bus src = Some b
    /\ forallb recognised body = true
    /\ list_sum (map count_from body) = 0%nat
    /\ list_sum (map count_yield body) = 1%nat
    /\ ends_in_yield (duct.NodeSeq body) = true.

(** The event pattern [OnEnterFrom] records. *)
Definition pattern_of (ty : string) (src : source) : EventPattern :=
  match source_cat src with
  | [] => {| DetailType := [ty] |}
  | cat => {| DetailType := cat |}
  end.

(** A call whose payload the callback does not recognise. *)
Definition offending (c : duct.Call) : option string :=
  match c with
  | duct.EnterMap _ n =>
      match duct.F n with
      | any_lambda _ => None
      | f => Some ("unkown compute type: " +:+ typeName f)
      end
  | duct.EnterFrom _ n =>
      match duct.Source n with
      | any_source _ => None
      | f => Some ("unkown input type: " +:+ typeName f)
      end
  | duct.EnterYield _ n =>
      match duct.Target n with
      | any_IQueue _ | any_eventbus _ => None
      | f => Some ("unkown reply type: " +:+ typeName f)
      end
  | _ => None
  end.

(** What a callback may do to a state with parallel names, case by
    case: it fails (always leaving the state as it was) or panics, or it
    returns the state given here in closed form. *)
Inductive step (ts : typeStep) : duct.Call -> result typeStep -> Prop :=
| step_same c : 
    match c with
    | duct.EnterMorphism _ _ | duct.LeaveFrom _ _ | duct.LeaveYield _ _ => True
    | _ => False
    end ->
    step ts c (Ok ts)
| step_error c e : step ts c (Err e ts)
| step_panic c why : step ts c (Panic why)
| step_artifact d n b :
    length (stack ts) = 1%nat -> bus ts = Some b ->
    step ts (duct.LeaveMorphism d n)
      (Ok (set_Construct
             (Construct ts
                ++ [ChildStateMachine
                      {| machine_id := "StateMachine";
                         DefinitionBody := mjoin (index (stack ts) 0) |};
                    ChildRule
                      {| rule_id := "Rule";
                         rule_EventBus := b;
                         rule_EventPattern := eventPattern ts;
                         rule_targets :=
                           [{| machine_id := "StateMachine";
                               DefinitionBody := mjoin (index (stack ts) 0) |}] |}])
             ts))
| step_open d n :
    step ts (duct.EnterSeq d n)
      (Ok (set_args "$"
             (set_names (names ts ++ [""]) (set_stack (stack ts ++ [None]) ts))))
| step_close d n s outer sub nn nouter name first rest :
    stack ts = s ++ [outer; sub] -> names ts = nn ++ [nouter; name] ->
    length s = length nn -> duct.Seq n = first :: rest ->
    step ts (duct.LeaveSeq d n)
      (Ok (set_args "$"
             (set_names (nn ++ [nouter +:+ seq_name name])
                (set_stack
                   (s ++ [Some (grow outer
                                  (NewMap (seq_name name) "$.Payload"
                                     (jsii_Number (concurency_of first)) sub))])
                   (create (ChildState (seq_name name)) ts)))))
| step_map d n f s c nn x :
    duct.F n = any_lambda f ->
    stack ts = s ++ [c] -> names ts = nn ++ [x] -> length s = length nn ->
    step ts (duct.EnterMap d n)
      (Ok (set_names (nn ++ [x +:+ Id (invoke_state ts f)])
             (set_stack (s ++ [Some (grow c (invoke_state ts f))])
                (set_Construct
                   (Construct ts
                      ++ invoke_children (DeadLetterQueue ts)
                           (function_id (lambda_f f)))
                   ts))))
| step_payload d n :
    step ts (duct.LeaveMap d n) (Ok (set_args "$.Payload" ts))
| step_from d n src :
    duct.Source n = any_source src ->
    step ts (duct.EnterFrom d n)
      (Ok (set_args "$.detail"
             (set_source (source_bus src)
                (Some (pattern_of (duct.From_Type n) src)) ts)))
| step_yield d n f s c nn x :
    sink_state ts n = Some f ->
    stack ts = s ++ [c] -> names ts = nn ++ [x] -> length s = length nn ->
    step ts (duct.EnterYield d n)
      (Ok (set_names (nn ++ [x +:+ Id f])
             (set_stack (s ++ [Some (grow c f)])
                (set_Construct (Construct ts ++ [ChildState "Sink"]) ts)))).

(** The pipeline of [TestTypeStep], and a variant that closes the
    fan-out before a last function. *)
Module TestTypeStep.

Definition event : IEventBus := {| bus_id := "Events" |}.

Definition queue : IQueue :=
  {| queue_type := "*awssqs.jsiiProxy_IQueue"; queue_id := "Queue" |}.

Definition tstring : gotype := TNamed "string".

Definition a : F tstring tstring := {| F_F := {| function_id := "A" |} |}.
Definition b : F tstring (TSlice tstring) := {| F_F := {| function_id := "B" |} |}.
Definition c : F tstring (TSlice tstring) := {| F_F := {| function_id := "C" |} |}.
Definition d : F tstring tstring := {| F_F := {| function_id := "D" |} |}.
Definition e : F (TSlice tstring) tstring := {| F_F := {| function_id := "E" |} |}.

Definition p1 := From tstring (Some event) [].
Definition p2 := Join a p1.
Definition p3 := Join b p2.
Definition p4 := Lift c p3.
Definition p5 := Lift d p4.
Definition p6 := ToQueue queue p5.

Definition props : TypeStepProps :=
  {| props_DeadLetterQueue := Some queue; props_SeqConcurrency := None |}.

Definition no_props : TypeStepProps :=
  {| props_DeadLetterQueue := None; props_SeqConcurrency := None |}.

(** [From], [Join b], a fan-out over [d] closed by [Unit], then [Join e]. *)
Definition closed : duct.Morphism tstring tstring :=
  Join e (Unit (Lift d (Join b p1))).

End TestTypeStep.

(** The innermost open level of a morphism: the children of the [Seq]
    node under construction. *)
Definition fanout {A B : gotype} (m : duct.Morphism A B) : list duct.Ast :=
  hd [] (duct.levels m).

(** What the callbacks of a node leave alone: the event source, the
    dead-letter queue and the artifacts of the scope. *)
Definition same_frame (ts ts' : typeStep) : Prop :=
  bus ts' = bus ts
  /\ eventPattern ts' = eventPattern ts
  /\ DeadLetterQueue ts' = DeadLetterQueue ts
  /\ artifacts (Construct ts') = artifacts (Construct ts).

(** The calls that neither set the event source nor end the pipeline. *)
Definition inner_call (c : duct.Call) : Prop :=
  match c with
  | duct.EnterFrom _ _ | duct.LeaveMorphism _ _ => False
  | _ => True
  end.

(** Every call but the last one of a traversal. *)
Definition not_leave_morphism (c : duct.Call) : Prop :=
  match c with
  | duct.LeaveMorphism _ _ => False
  | _ => True
  end.

(** The catch branches of a state are those [OnEnterMap] attaches under
    the dead-letter queue [q]. *)
Definition catches_ok (q : option IQueue) (s : State) : Prop :=
  match s with
  | NewLambdaInvoke _ _ f cs => cs = dead_letter q (function_id f)
  | _ => True
  end.

(** Every state of the open levels and of the state machines, at any
    depth, has the catch branches of the queue [q]. *)
Definition wired (q : option IQueue) (ts : typeStep) : Prop :=
  DeadLetterQueue ts = q
  /\ forall t,
       In t (level_states (stack ts)) \/ In t (machine_states (Construct ts)) ->
       forall s, within s t -> catches_ok q s.

(** Every name is the concatenation of the identifiers of the states of
    its chain level. *)
Definition named (ts : typeStep) : Prop :=
  Forall2 (fun c n => n = concat_ids c) (stack ts) (names ts).

(** A node that invokes a lambda. *)
Definition plain (n : duct.Ast) : Prop :=
  exists f, n = duct.NodeMap {| duct.F := any_lambda f |}.

(** The pipelines built from a [From] bound to a bus by [Join], [Lift],
    [LiftP] and [Wrap]. *)
Inductive linear : forall {A B : gotype}, duct.Morphism A B -> Prop :=
| linear_From A b cat : linear (From A (Some b) cat)
| linear_Join {A B C} (f : F B C) (m : duct.Morphism A B) :
    linear m -> linear (Join f m)
| linear_Lift {A B C} (f : F B C) (m : duct.Morphism A (TSlice B)) :
    linear m -> linear (Lift f m)
| linear_LiftP {A B C} n (f : F B C) (m : duct.Morphism A (TSlice B)) :
    linear m -> linear (LiftP n f m)
| linear_Wrap {A B} (m : duct.Morphism A (TSlice B)) :
    linear m -> linear (Wrap m).

(** The children of a [Seq] (or of the root after its [From]) that end
    a well-formed pipeline. *)
Definition good_tail (l : list duct.Ast) : Prop :=
  l <> []
  /\ forallb recognised l = true
  /\ list_sum (map count_from l) = 0%nat
  /\ list_sum (map count_yield l) = 1%nat
  /\ ends_in_yield (duct.NodeSeq l) = true.

(** A state without its catch branches, at every depth. *)
Fixpoint strip (s : State) : State :=
  match s with
  | NewLambdaInvoke id path f _ => NewLambdaInvoke id path f []
  | NewMap id items mc sub => NewMap id items mc (option_map (map strip) sub)
  | other => other
  end.

Definition strip_level (c : option Chain) : option Chain :=
  option_map (map strip) c.

(** The chain levels of a state, catch branches apart. *)
Definition skeleton (ts : typeStep) : list (option Chain) :=
  map strip_level (stack ts).

(** Two states that differ at most by their scope, their dead-letter
    queue and the catch branches of their states. *)
Definition alike (t1 t2 : typeStep) : Prop :=
  names t1 = names t2
  /\ skeleton t1 = skeleton t2
  /\ args t1 = args t2
  /\ bus t1 = bus t2
  /\ eventPattern t1 = eventPattern t2.

(** The input path after a call, from the path before it. *)
Definition thread (path : string) (c : duct.Call) : string :=
  match c with
  | duct.EnterFrom _ _ => "$.detail"
  | duct.LeaveMap _ _ => "$.Payload"
  | duct.EnterSeq _ _ | duct.LeaveSeq _ _ => "$"
  | _ => path
  end.

(** The chain level obtained by adding the states [l] to a level. *)
Definition extend (level : option Chain) (l : list State) : option Chain :=
  match l with
  | [] => level
  | _ => Some (default [] level ++ l)
  end.

(** The identifiers of a list of states, concatenated. *)
Definition ids_of (l : list State) : string := concat_ids (Some l).

(** The sink state of a [Yield] node read at [path]. *)
Definition sink_of (path : string) (node : duct.AstYield) : list State :=
  match duct.Target node with
  | any_IQueue q => [NewSqsSendMessage "Sink" q path]
  | any_eventbus f =>
      [NewEventBridgePutEvents "Sink" path
         (match eventbus_cat f with
          | [] => duct.Yield_Type node
          | c :: _ => c
          end)
         (eventbus_source f) (eventbus_bus f)]
  | _ => []
  end.

(** Recursive descent over a syntax tree: the states that a node adds
    to the current chain when its input is read at [path] and the
    dead-letter queue is [q], and the path it leaves. A [Seq] node adds
    one map state over the states of its children. *)
Fixpoint states_of (q : option IQueue) (n : duct.Ast) (path : string)
    : list State * string :=
  match n with
  | duct.NodeFrom _ => ([], "$.detail")
  | duct.NodeMap x =>
      match duct.F x with
      | any_lambda f =>
          ([NewLambdaInvoke ("Map" +:+ function_id (lambda_f f)) path (lambda_f f)
              (dead_letter q (function_id (lambda_f f)))],
           "$.Payload")
      | _ => ([], path)
      end
  | duct.NodeSeq l =>
      let sub :=
        (fix go (l : list duct.Ast) (path : string) : list State :=
           match l with
           | [] => []
           | c :: r => fst (states_of q c path) ++ go r (snd (states_of q c path))
           end) l "$" in
      ([NewMap (seq_name (ids_of sub)) "$.Payload"
          (jsii_Number (match l with
                        | first :: _ => concurency_of first
                        | [] => 1
                        end))
          (extend None sub)],
       "$")
  | duct.NodeYield x => (sink_of path x, path)
  end.

(** The same over the children of a node, from left to right. *)
Fixpoint states_of_list (q : option IQueue) (l : list duct.Ast) (path : string)
    : list State * string :=
  match l with
  | [] => ([], path)
  | c :: r =>
      let (s1, p1) := states_of q c path in
      let (s2, p2) := states_of_list q r p1 in
      (s1 ++ s2, p2)
  end.

(** The identifiers of the constructs that make up a state, in the
    order of their creation: a state with its catch handlers after it, a
    map state after the states of its item processor. *)
Fixpoint constructs_of (s : State) : list string :=
  match s with
  | NewLambdaInvoke id _ _ cs =>
      id :: flat_map (fun h => flat_map constructs_of (fst h)) cs
  | NewMap id _ _ sub =>
      match sub with
      | Some l => flat_map constructs_of l
      | None => []
      end ++ [id]
  | other => [Id other]
  end.

(** The statement of the descent for a sequence of calls [cs] that
    stands for the nodes whose states and final path are [r]. *)
Definition descends (cs : list duct.Call)
    (r : option IQueue -> string -> list State * string) (inner : bool) : Prop :=
  forall (ts : typeStep) s c nn x,
    stack ts = s ++ [c] -> names ts = nn ++ [x] -> length s = length nn ->
    exists ts',
      duct.run cs ts = Ok ts'
      /\ stack ts' = s ++ [extend c (fst (r (DeadLetterQueue ts) (args ts)))]
      /\ names ts' = nn ++ [x +:+ ids_of (fst (r (DeadLetterQueue ts) (args ts)))]
      /\ args ts' = snd (r (DeadLetterQueue ts) (args ts))
      /\ DeadLetterQueue ts' = DeadLetterQueue ts
      /\ Construct ts'
         = Construct ts
             ++ map ChildState
                  (flat_map constructs_of (fst (r (DeadLetterQueue ts) (args ts))))
      /\ (inner = true -> bus ts' = bus ts /\ eventPattern ts' = eventPattern ts).

(** The pipelines built by [Join], [Lift], [LiftP] and [Wrap] from a
    [From] given the event bus [in_], nil or not. *)
Inductive sourced (in_ : option IEventBus)
    : forall {A B : gotype}, duct.Morphism A B -> Prop :=
| sourced_From A cat : sourced in_ (From A in_ cat)
| sourced_Join {A B C} (f : F B C) (m : duct.Morphism A B) :
    sourced in_ m -> sourced in_ (Join f m)
| sourced_Lift {A B C} (f : F B C) (m : duct.Morphism A (TSlice B)) :
    sourced in_ m -> sourced in_ (Lift f m)
| sourced_LiftP {A B C} n (f : F B C) (m : duct.Morphism A (TSlice B)) :
    sourced in_ m -> sourced in_ (LiftP n f m)
| sourced_Wrap {A B} (m : duct.Morphism A (TSlice B)) :
    sourced in_ m -> sourced in_ (Wrap m).

(** A lower-case hexadecimal digit. *)
Definition is_hex (a : ascii) : bool :=
  let n := N_of_ascii a in
  ((48 <=? n) && (n <=? 57) || (97 <=? n) && (n <=? 102))%N.

(* ===================================================================== *)
(** ** Elementary facts *)
(* ===================================================================== *)

Lemma index_last {A : Type} (l : list A) :
  index l (Z.of_nat (length l) - 1) = last l.
Proof.
  unfold index. rewrite last_lookup.
  destruct l as [|x l]; [reflexivity|].
  cbn [length]. destruct (Z.ltb_spec (Z.of_nat (S (length l)) - 1) 0); [lia|].
  f_equal. lia.
Qed.

Lemma index_0 {A : Type} (l : list A) : index l 0 = head l.
Proof. destruct l; reflexivity. Qed.

Lemma append_snoc (f : State) (ts : typeStep) s c n x :
  stack ts = s ++ [c] -> names ts = n ++ [x] -> length s = length n ->
  append f ts
  = Ok (set_names (n ++ [x +:+ Id f]) (set_stack (s ++ [Some (grow c f)]) ts)).
Proof.
  intros Hs Hn Hlen. unfold append.
  rewrite index_last, Hs, last_snoc. cbn [names set_stack].
  replace (Z.to_nat (Z.of_nat (length (s ++ [c])) - 1)) with (length s + 0)%nat
    by (rewrite length_app; simpl; lia).
  rewrite insert_app_r. cbn [insert list_insert].
  replace (Z.of_nat (length (s ++ [c])) - 1)
    with (Z.of_nat (length (names ts)) - 1)
    by (rewrite Hn, !length_app; simpl; lia).
  rewrite index_last, Hn, last_snoc.
  rewrite Hlen, insert_app_r. reflexivity.
Qed.

Lemma parallel_snoc (ts : typeStep) :
  parallel ts ->
  exists s c n x,
    stack ts = s ++ [c] /\ names ts = n ++ [x] /\ length s = length n.
Proof.
  intros [Hlen Hpos].
  destruct (stack ts) as [|c0 s0] eqn:Hs using rev_ind; [simpl in Hpos; lia|].
  destruct (names ts) as [|x0 n0] eqn:Hn using rev_ind.
  { rewrite length_app in Hlen. simpl in Hlen. lia. }
  exists s0, c0, n0, x0. repeat split.
  rewrite !length_app in Hlen. simpl in Hlen. lia.
Qed.

Lemma append_parallel (f : State) (ts : typeStep) :
  parallel ts ->
  exists ts',
    append f ts = Ok ts'
    /\ parallel ts'
    /\ length (stack ts') = length (stack ts)
    /\ emitted ts' = Some f
    /\ Construct ts' = Construct ts
    /\ DeadLetterQueue ts' = DeadLetterQueue ts
    /\ bus ts' = bus ts
    /\ eventPattern ts' = eventPattern ts
    /\ args ts' = args ts.
Proof.
  intros Hp. destruct (parallel_snoc ts Hp) as (s & c & n & x & Hs & Hn & Hlen).
  eexists. split; [apply (append_snoc f ts s c n x); assumption|].
  unfold parallel, emitted. cbn.
  rewrite Hs, !length_app, last_snoc. cbn.
  repeat split; try lia.
  destruct c as [c|]; cbn; [apply last_snoc | reflexivity].
Qed.

Lemma OnLeaveSeq_snoc depth node (ts : typeStep) s outer sub n nouter name first rest :
  stack ts = s ++ [outer; sub] -> names ts = n ++ [nouter; name] ->
  length s = length n -> duct.Seq node = first :: rest ->
  OnLeaveSeq depth node ts
  = Ok (set_args "$"
          (set_names (n ++ [nouter +:+ seq_name name])
             (set_stack
                (s ++ [Some (grow outer
                               (NewMap (seq_name name) "$.Payload"
                                  (jsii_Number (concurency_of first)) sub))])
                (create (ChildState (seq_name name)) ts)))).
Proof.
  intros Hs Hn Hlen Hnode.
  assert (Hl : length (stack ts) = length (names ts))
    by (rewrite Hs, Hn, !length_app; simpl; lia).
  assert (E : Z.to_nat (Z.of_nat (length (stack ts)) - 1) = length (s ++ [outer]))
    by (rewrite Hs, !length_app; simpl; lia).
  assert (L1 : last (names ts) = Some name).
  { rewrite Hn. change [nouter; name] with ([nouter] ++ [name]).
    rewrite app_assoc. apply last_snoc. }
  assert (L2 : last (stack ts) = Some sub).
  { rewrite Hs. change [outer; sub] with ([outer] ++ [sub]).
    rewrite app_assoc. apply last_snoc. }
  assert (T1 : take (length (s ++ [outer])) (stack ts) = s ++ [outer]).
  { rewrite Hs. change [outer; sub] with ([outer] ++ [sub]).
    rewrite app_assoc. apply take_app_length. }
  assert (T2 : take (length (s ++ [outer])) (names ts) = n ++ [nouter]).
  { rewrite Hn. change [nouter; name] with ([nouter] ++ [name]).
    rewrite app_assoc. apply take_app_length'. rewrite !length_app. simpl. lia. }
  unfold OnLeaveSeq. cbv zeta.
  rewrite Hl at 1. rewrite !index_last, L1, L2, Hnode, E.
  cbn [create set_Construct stack names set_stack set_names].
  rewrite T1, T2.
  erewrite append_snoc; [reflexivity|reflexivity|reflexivity|exact Hlen].
Qed.

Lemma OnLeaveSeq_top_panics depth node (ts : typeStep) :
  length (stack ts) = 1%nat -> state_of (OnLeaveSeq depth node ts) = None.
Proof.
  intros H1. unfold OnLeaveSeq. rewrite H1. cbn [Z.of_nat Z.sub].
  replace (Z.of_nat 1 - 1) with 0 by lia.
  destruct (index (names ts) 0); [|reflexivity].
  destruct (duct.Seq node); [reflexivity|].
  destruct (index (stack ts) 0); [|reflexivity].
  unfold append. cbn [create set_Construct stack names set_stack set_names].
  rewrite take_0. reflexivity.
Qed.

Lemma OnLeaveSeq_empty_panics depth (ts : typeStep) :
  state_of (OnLeaveSeq depth {| duct.Seq := [] |} ts) = None.
Proof.
  unfold OnLeaveSeq. destruct (index (names ts) _); reflexivity.
Qed.

(** Two levels at least, seen from the innermost one. *)
Lemma parallel_snoc2 (ts : typeStep) :
  parallel ts -> (2 <= length (stack ts))%nat ->
  exists s outer sub n nouter name,
    stack ts = s ++ [outer; sub] /\ names ts = n ++ [nouter; name]
    /\ length s = length n.
Proof.
  intros Hp H2. destruct (parallel_snoc ts Hp) as (s & c & n & x & Hs & Hn & Hlen).
  destruct s as [|o s] using rev_ind.
  { rewrite Hs in H2. simpl in H2. lia. }
  destruct n as [|no n] using rev_ind.
  { rewrite length_app in Hlen. simpl in Hlen. lia. }
  exists s, o, c, n, no, x. rewrite Hs, Hn, <- !app_assoc.
  repeat split. rewrite !length_app in Hlen. simpl in Hlen. lia.
Qed.

Lemma OnEnterMap_lambda depth node (ts : typeStep) f :
  duct.F node = any_lambda f ->
  OnEnterMap depth node ts
  = append (invoke_state ts f)
      (set_Construct
         (Construct ts
            ++ invoke_children (DeadLetterQueue ts) (function_id (lambda_f f)))
         ts).
Proof.
  intros H. unfold OnEnterMap. rewrite H. unfold invoke_state, invoke_children.
  cbn [DeadLetterQueue create set_Construct Construct].
  destruct (DeadLetterQueue ts); unfold create, set_Construct; cbn;
    rewrite <- ?app_assoc; reflexivity.
Qed.

Lemma OnEnterMap_other depth node (ts : typeStep) :
  (forall f, duct.F node <> any_lambda f) ->
  OnEnterMap depth node ts
  = Err ("unkown compute type: " +:+ typeName (duct.F node)) ts.
Proof.
  intros H. unfold OnEnterMap.
  destruct (duct.F node) eqn:E; try reflexivity. exfalso. eapply H. reflexivity.
Qed.

Lemma OnEnterYield_sink depth node (ts : typeStep) f :
  sink_state ts node = Some f ->
  OnEnterYield depth node ts
  = append f (set_Construct (Construct ts ++ [ChildState "Sink"]) ts).
Proof.
  unfold sink_state, OnEnterYield.
  destruct (duct.Target node); intros H; try discriminate;
    injection H as <-; reflexivity.
Qed.

Lemma OnEnterYield_other depth node (ts : typeStep) :
  sink_state ts node = None ->
  OnEnterYield depth node ts
  = Err ("unkown reply type: " +:+ typeName (duct.Target node)) ts.
Proof.
  unfold sink_state, OnEnterYield.
  destruct (duct.Target node); intros H; try discriminate; reflexivity.
Qed.

Lemma pattern_of_eq (ty : string) (src : source) :
  (if negb (Nat.eqb (length (source_cat src)) 0)
   then {| DetailType := source_cat src |}
   else {| DetailType := [ty] |})
  = pattern_of ty src.
Proof. unfold pattern_of. destruct (source_cat src); reflexivity. Qed.

Lemma invoke_step (c : duct.Call) (ts : typeStep) :
  parallel ts -> step ts c (duct.invoke c ts).
Proof.
  intros Hp.
  destruct c as [d n|d n|d n|d n|d n|d n|d n|d n|d n|d n];
    cbn [duct.invoke typeStep_Visitor duct.OnEnterMorphism duct.OnLeaveMorphism
         duct.OnEnterSeq duct.OnLeaveSeq duct.OnEnterMap duct.OnLeaveMap
         duct.OnEnterFrom duct.OnLeaveFrom duct.OnEnterYield duct.OnLeaveYield].
  - apply step_same. exact I.
  - unfold OnLeaveMorphism.
    destruct (Nat.eqb_spec (length (stack ts)) 1) as [H1|H1]; cbn [negb];
      [|apply step_error].
    destruct (bus ts) as [b|] eqn:Hb; [|apply step_error].
    unfold create, set_Construct.
    cbn [Construct DeadLetterQueue bus eventPattern args stack names].
    rewrite <- app_assoc. apply (step_artifact ts d n b H1 Hb).
  - apply step_open.
  - destruct (decide (length (stack ts) = 1%nat)) as [H1|H1].
    { pose proof (OnLeaveSeq_top_panics d n ts H1) as H.
      destruct (OnLeaveSeq d n ts); try discriminate. apply step_panic. }
    destruct (duct.Seq n) as [|first rest] eqn:Hn.
    { destruct n as [l]. cbn in Hn. subst l.
      pose proof (OnLeaveSeq_empty_panics d ts) as H.
      destruct (OnLeaveSeq d _ ts); try discriminate. apply step_panic. }
    destruct (parallel_snoc2 ts Hp) as (s & o & sub & nn & no & x & Hs & Hnn & Hlen).
    { destruct Hp. lia. }
    rewrite (OnLeaveSeq_snoc d n ts s o sub nn no x first rest Hs Hnn Hlen Hn).
    eapply step_close; eassumption.
  - destruct (parallel_snoc ts Hp) as (s & c & nn & x & Hs & Hnn & Hlen).
    destruct (duct.F n) eqn:E;
      try (rewrite OnEnterMap_other by (rewrite E; discriminate); apply step_error).
    rewrite (OnEnterMap_lambda d n ts v E).
    erewrite append_snoc; [|exact Hs|exact Hnn|exact Hlen].
    eapply step_map; eassumption.
  - apply step_payload.
  - unfold OnEnterFrom. destruct (duct.Source n) eqn:E; try apply step_error.
    rewrite pattern_of_eq. apply step_from. exact E.
  - apply step_same. exact I.
  - destruct (parallel_snoc ts Hp) as (s & c & nn & x & Hs & Hnn & Hlen).
    destruct (sink_state ts n) as [f|] eqn:E.
    + rewrite (OnEnterYield_sink d n ts f E).
      erewrite append_snoc; [|exact Hs|exact Hnn|exact Hlen].
      eapply step_yield; eassumption.
    + rewrite (OnEnterYield_other d n ts E). apply step_error.
  - apply step_same. exact I.
Qed.

(** An invariant of the callbacks is an invariant of the traversal. *)
Lemma run_invariant (P : typeStep -> Prop) :
  (forall c ts ts', P ts -> state_of (duct.invoke c ts) = Some ts' -> P ts') ->
  forall cs ts ts', P ts -> state_of (duct.run cs ts) = Some ts' -> P ts'.
Proof.
  intros Hstep cs. induction cs as [|c cs IH]; intros ts ts' HP H.
  - injection H as <-. exact HP.
  - cbn [duct.run] in H.
    destruct (duct.invoke c ts) as [t|e t|why] eqn:E.
    + eapply IH; [|exact H]. eapply Hstep; [exact HP|]. rewrite E. reflexivity.
    + eapply Hstep; [exact HP|]. rewrite E. exact H.
    + discriminate.
Qed.

Lemma invoke_parallel (c : duct.Call) (ts ts' : typeStep) :
  parallel ts -> state_of (duct.invoke c ts) = Some ts' -> parallel ts'.
Proof.
  intros Hp H. pose proof (invoke_step c ts Hp) as Hs.
  destruct Hs; try (injection H as <-); try discriminate; try exact Hp;
    destruct Hp as [Hl Hpos]; unfold parallel; cbn;
    rewrite ?length_app; cbn;
    repeat match goal with
           | E : stack ts = _ |- _ => rewrite E in *; clear E
           | E : names ts = _ |- _ => rewrite E in *; clear E
           end;
    rewrite ?length_app in *; cbn in *; lia.
Qed.

Lemma NewTypeStep_parallel (props : TypeStepProps) : parallel (NewTypeStep props).
Proof. split; cbn; lia. Qed.

Lemma reachable_parallel props cs ts :
  state_of (duct.run cs (NewTypeStep props)) = Some ts -> parallel ts.
Proof.
  apply (run_invariant parallel invoke_parallel). apply NewTypeStep_parallel.
Qed.

(* ===================================================================== *)
(** ** The stack of chains and the names run in parallel *)
(* ===================================================================== *)

Lemma run_nesting cs : forall (ts ts' : typeStep) (d0 : nat),
  parallel ts -> length (stack ts) = S d0 ->
  duct.run cs ts = Ok ts' ->
  exists d, nesting cs d0 = Some d /\ length (stack ts') = S d.
Proof.
  induction cs as [|c cs IH]; intros ts ts' d0 Hp Hd H.
  - injection H as <-. exists d0. split; [reflexivity|exact Hd].
  - cbn [duct.run] in H.
    destruct (duct.invoke c ts) as [t|e t|why] eqn:E; try discriminate.
    assert (Hp' : parallel t)
      by (apply (invoke_parallel c ts t Hp); rewrite E; reflexivity).
    pose proof (invoke_step c ts Hp) as Hs. rewrite E in Hs.
    inversion Hs; subst; cbn [nesting].
    + destruct c; try contradiction; eapply IH; eauto.
    + eapply IH; [exact Hp'| |exact H]. exact Hd.
    + eapply IH; [exact Hp'| |exact H]. cbn. rewrite length_app, Hd. cbn. lia.
    + destruct d0 as [|d0].
      { match goal with E : stack ts = _ |- _ => rewrite E in Hd end.
        rewrite length_app in Hd. cbn in Hd. lia. }
      eapply IH; [exact Hp'| |exact H]. cbn.
      match goal with E : stack ts = _ |- _ => rewrite E in Hd end.
      rewrite length_app in *. cbn in *. lia.
    + eapply IH; [exact Hp'| |exact H]. cbn.
      match goal with E : stack ts = _ |- _ => rewrite E in Hd end.
      rewrite length_app in *. cbn in *. lia.
    + eapply IH; [exact Hp'| |exact H]. exact Hd.
    + eapply IH; [exact Hp'| |exact H]. exact Hd.
    + eapply IH; [exact Hp'| |exact H]. cbn.
      match goal with E : stack ts = _ |- _ => rewrite E in Hd end.
      rewrite length_app in *. cbn in *. lia.
Qed.

(** C10. Whatever callbacks have returned since [NewTypeStep], the stack
    of chains and the list of names have the same length, one more than
    the number of [Seq] nodes entered and not yet left (so at least 1),
    and [append] succeeds: it keeps both lengths and every level below
    the innermost one. *)
Theorem stack_names_parallel (props : TypeStepProps) (cs : list duct.Call)
    (ts : typeStep) :
  duct.run cs (NewTypeStep props) = Ok ts ->
  exists d,
    nesting cs 0 = Some d
    /\ length (stack ts) = S d
    /\ length (names ts) = S d
    /\ forall f, exists ts',
         append f ts = Ok ts'
         /\ length (stack ts') = S d
         /\ length (names ts') = S d
         /\ take d (stack ts') = take d (stack ts)
         /\ take d (names ts') = take d (names ts).
Proof.
  intros H.
  assert (Hp : parallel ts)
    by (apply (reachable_parallel props cs); rewrite H; reflexivity).
  destruct (run_nesting cs (NewTypeStep props) ts 0%nat) as (d & Hn & Hd);
    [apply NewTypeStep_parallel|reflexivity|exact H|].
  exists d. split; [exact Hn|]. split; [exact Hd|].
  destruct Hp as [Hl _]. split; [lia|].
  intros f.
  destruct (parallel_snoc ts) as (s & c & n & x & Hs & Hnn & Hlen);
    [split; lia|].
  eexists. split; [apply (append_snoc f ts s c n x Hs Hnn Hlen)|].
  assert (Hsd : length s = d) by (rewrite Hs, length_app in Hd; cbn in Hd; lia).
  cbn. rewrite Hs, Hnn, !length_app. cbn.
  repeat split; try lia.
  - rewrite !take_app_length'; [reflexivity|exact (eq_sym Hsd)..].
  - rewrite !take_app_length'; [reflexivity|lia..].
Qed.

Lemma stack_names_parallel_witness :
  let n := {| duct.Seq := [duct.NodeMap {| duct.F := any_nil |}] |} in
  exists d,
    nesting [duct.EnterSeq 1 n; duct.EnterSeq 2 n; duct.LeaveSeq 2 n] 0 = Some d
    /\ d = 1%nat.
Proof.
  intros n.
  destruct (stack_names_parallel
              {| props_DeadLetterQueue := None; props_SeqConcurrency := None |}
              [duct.EnterSeq 1 n; duct.EnterSeq 2 n; duct.LeaveSeq 2 n]
              (set_args "$"
                 (set_names [""; seq_name ""]
                    (set_stack
                       [None;
                        Some [NewMap (seq_name "") "$.Payload" (jsii_Number 1) None]]
                       (create (ChildState (seq_name ""))
                          (NewTypeStep
                             {| props_DeadLetterQueue := None;
                                props_SeqConcurrency := None |}))))))
    as (d & Hn & Hd & _).
  - vm_compute. reflexivity.
  - exists d. split; [exact Hn|]. cbn in Hd. congruence.
Defined.

(* ===================================================================== *)
(** ** Failures of [OnLeaveMorphism] *)
(* ===================================================================== *)

(** C5. [OnLeaveMorphism] fails with the malformed-pipeline error when
    the number of open chain levels is not one, and with the undefined
    event source error when one level is open and no event bus was
    captured. Either way the state is returned as it was, so its scope
    has gained no state machine and no rule; a builder fresh from
    [NewTypeStep], which has visited no [From], fails the second way. *)
Theorem leave_morphism_failures (depth : Z) (node : duct.AstSeq) (ts : typeStep) :
  (length (stack ts) <> 1%nat ->
   OnLeaveMorphism depth node ts = Err "bad definition of compute pipeline" ts)
  /\ (length (stack ts) = 1%nat -> bus ts = None ->
      OnLeaveMorphism depth node ts
      = Err "undefined event source for compute pipeline" ts)
  /\ (forall e ts', OnLeaveMorphism depth node ts = Err e ts' ->
      ts' = ts /\ artifacts (Construct ts') = artifacts (Construct ts))
  /\ (forall props,
      OnLeaveMorphism depth node (NewTypeStep props)
      = Err "undefined event source for compute pipeline" (NewTypeStep props)
      /\ artifacts (Construct (NewTypeStep props)) = []).
Proof.
  unfold OnLeaveMorphism. repeat split.
  - intros H. destruct (Nat.eqb_spec (length (stack ts)) 1); [contradiction|].
    reflexivity.
  - intros H Hb. rewrite H, Hb. reflexivity.
  - destruct (negb _); [congruence|]. destruct (bus ts); congruence.
  - destruct (negb _); [congruence|]. destruct (bus ts); congruence.
Qed.

Lemma leave_morphism_failures_witness :
  let ts := set_stack [None; None] (NewTypeStep {| props_DeadLetterQueue := None;
                                                   props_SeqConcurrency := None |}) in
  OnLeaveMorphism 0 {| duct.Seq := [] |} ts
  = Err "bad definition of compute pipeline" ts.
Proof.
  intros ts.
  apply (proj1 (leave_morphism_failures 0 {| duct.Seq := [] |} ts)).
  cbn. lia.
Defined.

(* ===================================================================== *)
(** ** Path threading *)
(* ===================================================================== *)

Lemma OnLeaveSeq_ok depth node (ts : typeStep) :
  parallel ts -> (2 <= length (stack ts))%nat -> duct.Seq node <> [] ->
  exists first name sub ts',
    head (duct.Seq node) = Some first
    /\ last (names ts) = Some name
    /\ last (stack ts) = Some sub
    /\ OnLeaveSeq depth node ts = Ok ts'
    /\ emitted ts'
       = Some (NewMap (seq_name name) "$.Payload"
                 (jsii_Number (concurency_of first)) sub)
    /\ args ts' = "$"
    /\ length (stack ts') = pred (length (stack ts))
    /\ length (names ts') = pred (length (names ts)).
Proof.
  intros Hp H2 Hne.
  destruct (parallel_snoc2 ts Hp H2) as (s & o & sub & nn & no & x & Hs & Hnn & Hlen).
  destruct (duct.Seq node) as [|first rest] eqn:Hn; [contradiction|].
  exists first, x, sub. eexists. split; [reflexivity|].
  split. { rewrite Hnn. change [no; x] with ([no] ++ [x]).
           rewrite app_assoc. apply last_snoc. }
  split. { rewrite Hs. change [o; sub] with ([o] ++ [sub]).
           rewrite app_assoc. apply last_snoc. }
  split; [apply (OnLeaveSeq_snoc depth node ts s o sub nn no x first rest); assumption|].
  unfold emitted. cbn. rewrite last_snoc, Hs, Hnn, !length_app. cbn.
  repeat split; try lia.
  destruct o as [c|]; cbn; [apply last_snoc|reflexivity].
Qed.

(** C1, amended. [OnEnterFrom] sets the input path to the event payload
    root ["$.detail"], every [OnLeaveMap] sets it to the invocation
    result field ["$.Payload"], and [OnEnterSeq] and [OnLeaveSeq] both
    set it to the root ["$"]; no other callback changes it. The state
    that [OnEnterMap] or [OnEnterYield] then emits reads its input at
    the current path. *)
Theorem path_threading (depth : Z) (ts : typeStep) :
  (forall node src, duct.Source node = any_source src ->
     exists ts', OnEnterFrom depth node ts = Ok ts' /\ args ts' = "$.detail")
  /\ (forall node,
     exists ts', OnLeaveMap depth node ts = Ok ts' /\ args ts' = "$.Payload")
  /\ (forall node,
     exists ts', OnEnterSeq depth node ts = Ok ts' /\ args ts' = "$")
  /\ (forall node,
     parallel ts -> (2 <= length (stack ts))%nat -> duct.Seq node <> [] ->
     exists ts', OnLeaveSeq depth node ts = Ok ts' /\ args ts' = "$")
  /\ (forall node ts', OnLeaveSeq depth node ts = Ok ts' -> args ts' = "$")
  /\ (forall node f, parallel ts -> duct.F node = any_lambda f ->
     exists ts',
       OnEnterMap depth node ts = Ok ts'
       /\ emitted ts'
          = Some (NewLambdaInvoke ("Map" +:+ function_id (lambda_f f)) (args ts)
                    (lambda_f f)
                    (dead_letter (DeadLetterQueue ts) (function_id (lambda_f f))))
       /\ args ts' = args ts)
  /\ (forall node q, parallel ts -> duct.Target node = any_IQueue q ->
     exists ts',
       OnEnterYield depth node ts = Ok ts'
       /\ emitted ts' = Some (NewSqsSendMessage "Sink" q (args ts))
       /\ args ts' = args ts)
  /\ (forall node f, parallel ts -> duct.Target node = any_eventbus f ->
     exists ts' kind,
       OnEnterYield depth node ts = Ok ts'
       /\ emitted ts'
          = Some (NewEventBridgePutEvents "Sink" (args ts) kind
                    (eventbus_source f) (eventbus_bus f))
       /\ args ts' = args ts)
  /\ (forall n1 n2 n3,
     OnEnterMorphism depth n1 ts = Ok ts
     /\ OnLeaveFrom depth n2 ts = Ok ts
     /\ OnLeaveYield depth n3 ts = Ok ts).
Proof.
  repeat apply conj.
  - intros node src H. unfold OnEnterFrom. rewrite H. eexists. split; reflexivity.
  - intros node. eexists. split; reflexivity.
  - intros node. eexists. split; reflexivity.
  - intros node Hp H2 Hne.
    destruct (OnLeaveSeq_ok depth node ts Hp H2 Hne)
      as (first & name & sub & ts' & _ & _ & _ & E & _ & Ha & _).
    exists ts'. split; assumption.
  - intros node ts' H. unfold OnLeaveSeq in H.
    destruct (index (names ts) _); [|discriminate].
    destruct (duct.Seq node); [discriminate|].
    destruct (index (stack ts) _); [|discriminate].
    destruct (append _ _); try discriminate. injection H as <-. reflexivity.
  - intros node f Hp H. rewrite (OnEnterMap_lambda depth node ts f H).
    match goal with
    | |- context [append ?s ?t] =>
        destruct (append_parallel s t Hp) as (ts' & E & _ & _ & He & _ & _ & _ & _ & Ha)
    end.
    exists ts'. repeat split; assumption.
  - intros node q Hp H.
    assert (Hs : sink_state ts node = Some (NewSqsSendMessage "Sink" q (args ts)))
      by (unfold sink_state; rewrite H; reflexivity).
    rewrite (OnEnterYield_sink depth node ts _ Hs).
    match goal with
    | |- context [append ?s ?t] =>
        destruct (append_parallel s t Hp) as (ts' & E & _ & _ & He & _ & _ & _ & _ & Ha)
    end.
    exists ts'. repeat split; assumption.
  - intros node f Hp H.
    pose (kind := match eventbus_cat f with
                  | [] => duct.Yield_Type node
                  | c :: _ => c
                  end).
    assert (Hs : sink_state ts node
                 = Some (NewEventBridgePutEvents "Sink" (args ts) kind
                           (eventbus_source f) (eventbus_bus f)))
      by (unfold sink_state; rewrite H; reflexivity).
    rewrite (OnEnterYield_sink depth node ts _ Hs).
    match goal with
    | |- context [append ?s ?t] =>
        destruct (append_parallel s t Hp) as (ts' & E & _ & _ & He & _ & _ & _ & _ & Ha)
    end.
    exists ts', kind. repeat split; assumption.
  - intros n1 n2 n3. repeat split.
Qed.

Lemma path_threading_witness :
  exists ts',
    OnLeaveSeq 1 {| duct.Seq := [duct.NodeMap {| duct.F := any_nil |}] |}
      (set_names [""; "MapD"] (set_stack [None; None]
         (NewTypeStep TestTypeStep.no_props))) = Ok ts'
    /\ args ts' = "$".
Proof.
  apply (proj1 (proj2 (proj2 (proj2
           (path_threading 1 (set_names [""; "MapD"] (set_stack [None; None]
              (NewTypeStep TestTypeStep.no_props)))))))).
  - split; cbn; lia.
  - cbn; lia.
  - discriminate.
Defined.

(** C1 as stated fails after a [Seq]: in the pipeline [closed] the path
    left by [OnLeaveSeq] is ["$"], not ["$.Payload"], and the invoke
    state emitted next reads its input there. *)
Lemma path_after_seq_counterexample :
  exists ts1 ts2 node,
    duct.trace (duct.root TestTypeStep.closed)
      = duct.EnterMorphism 0 (duct.root TestTypeStep.closed)
          :: [duct.EnterFrom 1 {| duct.From_Type := "string";
                                  duct.Source := any_source
                                    {| source_cat := [];
                                       source_bus := Some TestTypeStep.event |} |};
              duct.LeaveFrom 1 {| duct.From_Type := "string";
                                  duct.Source := any_source
                                    {| source_cat := [];
                                       source_bus := Some TestTypeStep.event |} |}]
          ++ [duct.EnterMap 1 {| duct.F := any_lambda
                {| lambda_concurency := 1; lambda_f := {| function_id := "B" |} |} |};
              duct.LeaveMap 1 {| duct.F := any_lambda
                {| lambda_concurency := 1; lambda_f := {| function_id := "B" |} |} |}]
          ++ [duct.EnterSeq 1 node;
              duct.EnterMap 2 {| duct.F := any_lambda
                {| lambda_concurency := 1; lambda_f := {| function_id := "D" |} |} |};
              duct.LeaveMap 2 {| duct.F := any_lambda
                {| lambda_concurency := 1; lambda_f := {| function_id := "D" |} |} |};
              duct.LeaveSeq 1 node]
          ++ [duct.EnterMap 1 {| duct.F := any_lambda
                {| lambda_concurency := 1; lambda_f := {| function_id := "E" |} |} |};
              duct.LeaveMap 1 {| duct.F := any_lambda
                {| lambda_concurency := 1; lambda_f := {| function_id := "E" |} |} |};
              duct.LeaveMorphism 0 (duct.root TestTypeStep.closed)]
    /\ duct.run (take 9 (duct.trace (duct.root TestTypeStep.closed)))
         (NewTypeStep TestTypeStep.no_props) = Ok ts1
    /\ args ts1 = "$"
    /\ args ts1 <> "$.Payload"
    /\ OnEnterMap 1 {| duct.F := any_lambda
         {| lambda_concurency := 1; lambda_f := {| function_id := "E" |} |} |} ts1
       = Ok ts2
    /\ emitted ts2
       = Some (NewLambdaInvoke "MapE" "$" {| function_id := "E" |} []).
Proof.
  eexists. eexists. eexists.
  split; [vm_compute; reflexivity|].
  split; [vm_compute; reflexivity|].
  split; [reflexivity|].
  split; [discriminate|].
  split; [vm_compute; reflexivity|].
  reflexivity.
Qed.

(** X11. Along a traversal that returns, the input path is the one set
    by the last call that sets it: ["$.detail"] by [OnEnterFrom],
    ["$.Payload"] by [OnLeaveMap], ["$"] by [OnEnterSeq] and
    [OnLeaveSeq]; it is the initial path if no call sets it. *)
Lemma run_threads_path (cs : list duct.Call) : forall (ts ts' : typeStep),
  parallel ts -> duct.run cs ts = Ok ts' ->
  args ts' = fold_left thread cs (args ts).
Proof.
  induction cs as [|c cs IH]; intros ts ts' Hp H.
  - injection H as <-. reflexivity.
  - cbn [duct.run fold_left] in *.
    destruct (duct.invoke c ts) as [t| |] eqn:E; try discriminate.
    assert (Hp' : parallel t)
      by (apply (invoke_parallel c ts t Hp); rewrite E; reflexivity).
    rewrite (IH t ts' Hp' H). f_equal.
    pose proof (invoke_step c ts Hp) as Hs. rewrite E in Hs.
    inversion Hs; subst; try reflexivity.
    destruct c; try contradiction; reflexivity.
Qed.

(* ===================================================================== *)
(** ** Concurrency of a fan-out *)
(* ===================================================================== *)

Lemma leave_seq_concurrency depth first rest (ts : typeStep) :
  parallel ts -> (2 <= length (stack ts))%nat ->
  exists ts' name sub,
    last (names ts) = Some name
    /\ last (stack ts) = Some sub
    /\ OnLeaveSeq depth {| duct.Seq := first :: rest |} ts = Ok ts'
    /\ emitted ts'
       = Some (NewMap (seq_name name) "$.Payload"
                 (jsii_Number (concurency_of first)) sub).
Proof.
  intros Hp H2.
  destruct (OnLeaveSeq_ok depth {| duct.Seq := first :: rest |} ts Hp H2)
    as (first' & name & sub & ts' & Hh & Hn & Hs & E & He & _);
    [discriminate|].
  cbn in Hh. injection Hh as <-.
  exists ts', name, sub. repeat split; assumption.
Qed.

(** C2. The fan-out opened by [LiftP n f m] is seeded by the lambda of
    bound [n]: whatever follows in the fan-out, the map state that
    [OnLeaveSeq] emits for it has [MaxConcurrency] equal to [n]. With
    [Lift f m] it is 1, and the lambda that [Join] builds records 1. *)
Theorem concurrency_propagation {A B C : gotype} (n : Z) (f : F B C)
    (m : duct.Morphism A (TSlice B)) (rest : list duct.Ast)
    (depth : Z) (ts : typeStep) :
  parallel ts -> (2 <= length (stack ts))%nat ->
  (exists ts' name sub,
     last (names ts) = Some name /\ last (stack ts) = Some sub
     /\ OnLeaveSeq depth {| duct.Seq := fanout (LiftP n f m) ++ rest |} ts = Ok ts'
     /\ emitted ts'
        = Some (NewMap (seq_name name) "$.Payload" (jsii_Number n) sub))
  /\ (exists ts' name sub,
     last (names ts) = Some name /\ last (stack ts) = Some sub
     /\ OnLeaveSeq depth {| duct.Seq := fanout (Lift f m) ++ rest |} ts = Ok ts'
     /\ emitted ts'
        = Some (NewMap (seq_name name) "$.Payload" (jsii_Number 1) sub))
  /\ (forall (A' B' C' : gotype) (g : F B' C') (m' : duct.Morphism A' B'),
     exists node,
       last (fanout (Join g m')) = Some node
       /\ node = duct.NodeMap
                   {| duct.F := any_lambda {| lambda_concurency := 1;
                                              lambda_f := F_F g |} |}
       /\ concurency_of node = 1).
Proof.
  intros Hp H2. repeat apply conj.
  - exact (leave_seq_concurrency depth
             (duct.NodeMap {| duct.F := any_lambda {| lambda_concurency := n;
                                                      lambda_f := F_F f |} |})
             rest ts Hp H2).
  - exact (leave_seq_concurrency depth
             (duct.NodeMap {| duct.F := any_lambda {| lambda_concurency := 1;
                                                      lambda_f := F_F f |} |})
             rest ts Hp H2).
  - intros A' B' C' g m'. eexists. split; [|split; reflexivity].
    unfold fanout, Join. cbn [duct.levels]. unfold duct.push.
    destruct (duct.levels m'); cbn; [reflexivity|apply last_snoc].
Qed.

Lemma concurrency_propagation_witness :
  exists ts' name sub,
    OnLeaveSeq 1
      {| duct.Seq := fanout (LiftP 5 TestTypeStep.c TestTypeStep.p3) ++ [] |}
      (set_names [""; "MapC"] (set_stack [None; None]
         (NewTypeStep TestTypeStep.no_props))) = Ok ts'
    /\ emitted ts'
       = Some (NewMap (seq_name name) "$.Payload" (jsii_Number 5) sub).
Proof.
  destruct (concurrency_propagation 5 TestTypeStep.c TestTypeStep.p3 [] 1
              (set_names [""; "MapC"] (set_stack [None; None]
                 (NewTypeStep TestTypeStep.no_props))))
    as [(ts' & name & sub & _ & _ & E & He) _].
  - split; cbn; lia.
  - cbn; lia.
  - exists ts', name, sub. split; assumption.
Defined.

(** Later compositions add to the end of the fan-out: its seed stays. *)
Lemma push_keeps_seed (n seed : duct.Ast) (ls : list (list duct.Ast)) :
  head (hd [] ls) = Some seed -> head (hd [] (duct.push n ls)) = Some seed.
Proof.
  destruct ls as [|[|x inner] outer]; cbn; try discriminate. trivial.
Qed.

(** C9. When the first child of a [Seq] node is not a map over a lambda
    (a nested [Seq], say), [OnLeaveSeq] still returns without error and
    the map state it emits has concurrency 1. Only a [Seq] node with no
    child makes it panic. *)
Theorem seq_concurrency_fallback (depth : Z) (node : duct.AstSeq) (ts : typeStep) :
  parallel ts -> (2 <= length (stack ts))%nat ->
  (forall first,
     head (duct.Seq node) = Some first ->
     (forall f, first <> duct.NodeMap {| duct.F := any_lambda f |}) ->
     exists ts' name sub,
       last (names ts) = Some name /\ last (stack ts) = Some sub
       /\ OnLeaveSeq depth node ts = Ok ts'
       /\ emitted ts'
          = Some (NewMap (seq_name name) "$.Payload" (jsii_Number 1) sub))
  /\ (duct.Seq node = [] ->
      OnLeaveSeq depth node ts = Panic "index out of range").
Proof.
  intros Hp H2. split.
  - intros first Hh Hnot. destruct node as [l]. cbn in Hh.
    destruct l as [|x rest]; [discriminate|]. injection Hh as ->.
    destruct (leave_seq_concurrency depth first rest ts Hp H2)
      as (ts' & name & sub & Hn & Hs & E & He).
    exists ts', name, sub. repeat split; try assumption.
    rewrite He. do 3 f_equal.
    destruct first as [x|[[| | | | |]]|l|x]; cbn; try reflexivity.
    exfalso. eapply Hnot. reflexivity.
  - intros Hn. unfold OnLeaveSeq. rewrite Hn.
    destruct (index (names ts) _); reflexivity.
Qed.

Lemma seq_concurrency_fallback_witness :
  exists ts' name sub,
    OnLeaveSeq 1
      {| duct.Seq := [duct.NodeSeq [duct.NodeMap {| duct.F := any_nil |}]] |}
      (set_names [""; "Seq"] (set_stack [None; None]
         (NewTypeStep TestTypeStep.no_props))) = Ok ts'
    /\ emitted ts'
       = Some (NewMap (seq_name name) "$.Payload" (jsii_Number 1) sub).
Proof.
  destruct (seq_concurrency_fallback 1
              {| duct.Seq := [duct.NodeSeq [duct.NodeMap {| duct.F := any_nil |}]] |}
              (set_names [""; "Seq"] (set_stack [None; None]
                 (NewTypeStep TestTypeStep.no_props))))
    as [H _].
  - split; cbn; lia.
  - cbn; lia.
  - destruct (H (duct.NodeSeq [duct.NodeMap {| duct.F := any_nil |}]))
      as (ts' & name & sub & _ & _ & E & He).
    + reflexivity.
    + discriminate.
    + exists ts', name, sub. split; assumption.
Defined.

(* ===================================================================== *)
(** ** Traversals *)
(* ===================================================================== *)

Lemma run_app {V : Type} `{duct.Visitor V} (l1 l2 : list duct.Call) (v : V) :
  duct.run (l1 ++ l2) v
  = match duct.run l1 v with
    | Ok v' => duct.run l2 v'
    | other => other
    end.
Proof.
  revert v. induction l1 as [|c l1 IH]; intros v; [reflexivity|].
  cbn [app duct.run]. destruct (duct.invoke c v); [apply IH|reflexivity..].
Qed.

(** Induction on syntax trees, with the hypothesis on every child. *)
Lemma Ast_induction (P : duct.Ast -> Prop) :
  (forall x, P (duct.NodeFrom x)) ->
  (forall x, P (duct.NodeMap x)) ->
  (forall l, Forall P l -> P (duct.NodeSeq l)) ->
  (forall x, P (duct.NodeYield x)) ->
  forall n, P n.
Proof.
  intros Hf Hm Hs Hy.
  fix IH 1. intros [x|x|l|x]; [apply Hf|apply Hm| |apply Hy].
  apply Hs. induction l as [|n l IHl]; constructor; [apply IH|exact IHl].
Qed.

Lemma same_frame_refl ts : same_frame ts ts.
Proof. repeat split. Qed.

Lemma same_frame_trans t1 t2 t3 :
  same_frame t1 t2 -> same_frame t2 t3 -> same_frame t1 t3.
Proof.
  unfold same_frame. intros (?&?&?&?) (?&?&?&?). repeat split; congruence.
Qed.

Lemma artifacts_states (cs : list Child) (ids : list string) :
  artifacts (cs ++ map ChildState ids) = artifacts cs.
Proof.
  unfold artifacts. rewrite List.filter_app.
  replace (List.filter is_artifact (map ChildState ids)) with (@nil Child);
    [apply app_nil_r|].
  induction ids; cbn; trivial.
Qed.

Lemma artifacts_invoke_children cs q uuid :
  artifacts (cs ++ invoke_children q uuid) = artifacts cs.
Proof.
  destruct q; unfold invoke_children.
  - apply (artifacts_states cs ["Map" +:+ uuid; "Try" +:+ uuid; "Err" +:+ uuid]).
  - apply (artifacts_states cs ["Map" +:+ uuid]).
Qed.

Lemma invoke_frame (c : duct.Call) (ts ts' : typeStep) :
  parallel ts -> inner_call c ->
  state_of (duct.invoke c ts) = Some ts' -> same_frame ts ts'.
Proof.
  intros Hp Hc H. pose proof (invoke_step c ts Hp) as Hs.
  destruct Hs; try (injection H as <-); try discriminate;
    try contradiction; try apply same_frame_refl;
    unfold same_frame; cbn; repeat split.
  - apply (artifacts_states _ [seq_name name]).
  - apply artifacts_invoke_children.
  - apply (artifacts_states _ ["Sink"]).
Qed.

Lemma NodeMap_ok depth x (ts : typeStep) f :
  duct.F x = any_lambda f -> parallel ts ->
  exists ts',
    duct.run (duct.calls depth (duct.NodeMap x)) ts = Ok ts'
    /\ parallel ts'
    /\ length (stack ts') = length (stack ts)
    /\ same_frame ts ts'.
Proof.
  intros Hf Hp. cbn [duct.calls duct.run duct.invoke typeStep_Visitor
                     duct.OnEnterMap duct.OnLeaveMap].
  rewrite (OnEnterMap_lambda depth x ts f Hf).
  match goal with
  | |- context [append ?s ?t] =>
      destruct (append_parallel s t Hp)
        as (t' & E & Hp' & Hl & _ & Hc & Hq & Hb & He & _)
  end.
  rewrite E. eexists. split; [reflexivity|].
  split; [exact Hp'|]. split; [exact Hl|].
  unfold same_frame. cbn. rewrite Hc, Hq, Hb, He. cbn.
  repeat split. apply artifacts_invoke_children.
Qed.

Lemma NodeYield_ok depth x (ts : typeStep) :
  recognised (duct.NodeYield x) = true -> parallel ts ->
  exists ts',
    duct.run (duct.calls depth (duct.NodeYield x)) ts = Ok ts'
    /\ parallel ts'
    /\ length (stack ts') = length (stack ts)
    /\ same_frame ts ts'.
Proof.
  intros Hr Hp.
  assert (Hs : exists f, sink_state ts x = Some f).
  { unfold sink_state. cbn in Hr.
    destruct (duct.Target x); try discriminate; eexists; reflexivity. }
  destruct Hs as [f Hs].
  cbn [duct.calls duct.run duct.invoke typeStep_Visitor
       duct.OnEnterYield duct.OnLeaveYield].
  rewrite (OnEnterYield_sink depth x ts f Hs).
  match goal with
  | |- context [append ?s ?t] =>
      destruct (append_parallel s t Hp)
        as (t' & E & Hp' & Hl & _ & Hc & Hq & Hb & He & _)
  end.
  rewrite E. eexists. split; [reflexivity|].
  split; [exact Hp'|]. split; [exact Hl|].
  unfold same_frame. rewrite Hc, Hq, Hb, He. cbn.
  repeat split. apply (artifacts_states _ ["Sink"]).
Qed.

(** A recognised node without [From] is traversed without failure; the
    number of open levels, the event source and the artifacts are as
    before. *)
Lemma run_recognised (n : duct.Ast) : forall depth (ts : typeStep),
  recognised n = true -> count_from n = 0%nat -> parallel ts ->
  exists ts',
    duct.run (duct.calls depth n) ts = Ok ts'
    /\ parallel ts'
    /\ length (stack ts') = length (stack ts)
    /\ same_frame ts ts'.
Proof.
  induction n as [x|x|l IHl|x] using Ast_induction; intros depth ts Hr Hc Hp.
  - discriminate.
  - cbn in Hr. destruct (duct.F x) eqn:E; try discriminate.
    eapply NodeMap_ok; eassumption.
  - assert (Hne : l <> []) by (destruct l; [discriminate|discriminate]).
    assert (Hall : forallb recognised l = true)
      by (destruct l; [discriminate|exact Hr]).
    cbn [count_from] in Hc. cbn [duct.calls duct.run].
    cbn [duct.invoke typeStep_Visitor duct.OnEnterSeq]. unfold OnEnterSeq.
    set (t0 := set_args "$" _).
    assert (Hp0 : parallel t0).
    { destruct Hp as [Hl Hpos]. split; cbn; rewrite !length_app; cbn; lia. }
    assert (Hl0 : length (stack t0) = S (length (stack ts)))
      by (cbn; rewrite length_app; cbn; lia).
    assert (Hf0 : same_frame ts t0) by (repeat split).
    clearbody t0.
    assert (Hbody : exists t1,
               duct.run (flat_map (duct.calls (depth + 1)) l) t0 = Ok t1
               /\ parallel t1 /\ length (stack t1) = length (stack t0)
               /\ same_frame t0 t1).
    { clear Hne Hr Hl0 Hf0. revert t0 Hp0.
      induction IHl as [|n l Hn _ IH]; intros t0 Hp0.
      - exists t0. repeat split; destruct Hp0; assumption.
      - cbn in Hall. apply andb_true_iff in Hall as [Hrn Hrl].
        change (list_sum (map count_from (n :: l)))
          with (count_from n + list_sum (map count_from l))%nat in Hc.
        destruct (Hn (depth + 1) t0 Hrn ltac:(lia) Hp0)
          as (t1 & E1 & Hp1 & Hl1 & Hf1).
        destruct (IH ltac:(lia) Hrl t1 Hp1) as (t2 & E2 & Hp2 & Hl2 & Hf2).
        exists t2. cbn [flat_map]. rewrite run_app, E1.
        split; [exact E2|]. split; [exact Hp2|].
        split; [congruence|]. eapply same_frame_trans; eassumption. }
    destruct Hbody as (t1 & E1 & Hp1 & Hl1 & Hf1).
    rewrite run_app, E1. cbn [duct.run duct.invoke typeStep_Visitor duct.OnLeaveSeq].
    destruct (OnLeaveSeq_ok depth {| duct.Seq := l |} t1 Hp1)
      as (first & name & sub & t2 & _ & _ & _ & E2 & _ & _ & Hl2 & Hn2);
      [destruct Hp; lia|exact Hne|].
    rewrite E2. exists t2. split; [reflexivity|].
    assert (Hp2 : parallel t2).
    { apply (invoke_parallel (duct.LeaveSeq depth {| duct.Seq := l |}) t1 t2 Hp1).
      cbn. rewrite E2. reflexivity. }
    split; [exact Hp2|]. split; [lia|].
    eapply same_frame_trans; [exact Hf0|].
    eapply same_frame_trans; [exact Hf1|].
    apply (invoke_frame (duct.LeaveSeq depth {| duct.Seq := l |}) t1 t2 Hp1 I).
    cbn. rewrite E2. reflexivity.
  - eapply NodeYield_ok; eassumption.
Qed.

Lemma run_body (l : list duct.Ast) : forall depth (ts : typeStep),
  forallb recognised l = true -> list_sum (map count_from l) = 0%nat ->
  parallel ts ->
  exists ts',
    duct.run (flat_map (duct.calls depth) l) ts = Ok ts'
    /\ parallel ts'
    /\ length (stack ts') = length (stack ts)
    /\ same_frame ts ts'.
Proof.
  induction l as [|n l IH]; intros depth ts Hr Hc Hp.
  - exists ts. repeat split; destruct Hp; assumption.
  - cbn in Hr. apply andb_true_iff in Hr as [Hrn Hrl].
    change (list_sum (map count_from (n :: l)))
      with (count_from n + list_sum (map count_from l))%nat in Hc.
    destruct (run_recognised n depth ts Hrn ltac:(lia) Hp)
      as (t1 & E1 & Hp1 & Hl1 & Hf1).
    destruct (IH depth t1 Hrl ltac:(lia) Hp1) as (t2 & E2 & Hp2 & Hl2 & Hf2).
    exists t2. cbn [flat_map]. rewrite run_app, E1.
    split; [exact E2|]. split; [exact Hp2|].
    split; [congruence|]. eapply same_frame_trans; eassumption.
Qed.

(** The compilation of a pipeline that begins with a [From] bound to the
    bus [b] and continues with recognised nodes. *)
Lemma compile_from (props : TypeStepProps) ty src b body :
  source_bus src = Some b ->
  forallb recognised body = true ->
  list_sum (map count_from body) = 0%nat ->
  let root :=
    {| duct.Seq :=
         duct.NodeFrom {| duct.From_Type := ty; duct.Source := any_source src |}
           :: body |} in
  exists ts' sm,
    duct.run (duct.trace root) (NewTypeStep props) = Ok ts'
    /\ length (stack ts') = 1%nat
    /\ DefinitionBody sm = mjoin (head (stack ts'))
    /\ machine_id sm = "StateMachine"
    /\ artifacts (Construct ts')
       = [ChildStateMachine sm;
          ChildRule {| rule_id := "Rule";
                       rule_EventBus := b;
                       rule_EventPattern := Some (pattern_of ty src);
                       rule_targets := [sm] |}].
Proof.
  intros Hb Hr Hc root. unfold duct.trace. cbn [duct.Seq root flat_map duct.calls].
  cbn [duct.run app duct.invoke typeStep_Visitor duct.OnEnterMorphism
       duct.OnEnterFrom duct.OnLeaveFrom].
  unfold OnEnterMorphism, OnEnterFrom, OnLeaveFrom. cbn [duct.Source duct.From_Type].
  rewrite pattern_of_eq.
  set (t1 := set_args "$.detail" _).
  assert (Hp1 : parallel t1) by (split; cbn; lia).
  destruct (run_body body 1 t1 Hr Hc Hp1) as (t2 & E2 & Hp2 & Hl2 & Hb2 & He2 & _ & Ha2).
  rewrite run_app, E2.
  cbn [duct.run duct.invoke typeStep_Visitor duct.OnLeaveMorphism].
  unfold OnLeaveMorphism. rewrite Hl2, Hb2. cbn [stack t1 set_args set_source
    NewTypeStep length Nat.eqb negb bus]. rewrite Hb.
  eexists.
  exists {| machine_id := "StateMachine";
            DefinitionBody := mjoin (index (stack t2) 0) |}.
  split; [reflexivity|].
  cbn [create set_Construct stack Construct eventPattern DefinitionBody machine_id].
  split; [exact Hl2|].
  split; [rewrite index_0; reflexivity|].
  split; [reflexivity|].
  unfold artifacts in *. rewrite !List.filter_app, Ha2, He2. reflexivity.
Qed.

(* ===================================================================== *)
(** ** Structural completeness and the trigger rule *)
(* ===================================================================== *)

(** C4. The compilation of a well-formed pipeline returns no error, ends
    with exactly one open chain level, and leaves in the scope exactly
    one state machine, whose body is that level, and exactly one rule,
    whose only target is that state machine. *)
Theorem structural_completeness (props : TypeStepProps) (root : duct.AstSeq) :
  well_formed root ->
  exists ts' sm rule,
    duct.run (duct.trace root) (NewTypeStep props) = Ok ts'
    /\ length (stack ts') = 1%nat
    /\ artifacts (Construct ts') = [ChildStateMachine sm; ChildRule rule]
    /\ DefinitionBody sm = mjoin (head (stack ts'))
    /\ rule_targets rule = [sm].
Proof.
  intros (ty & src & b & body & Hroot & Hb & Hr & Hc & _ & _).
  destruct (compile_from props ty src b body Hb Hr Hc)
    as (ts' & sm & E & Hl & Hd & _ & Ha).
  destruct root as [l]. cbn in Hroot. subst l.
  exists ts', sm. eexists. split; [exact E|]. split; [exact Hl|].
  split; [exact Ha|]. split; [exact Hd|reflexivity].
Qed.

(** C7. [OnEnterFrom] records as event pattern the categories of the
    source, or the name of the payload type when there are none, and
    this is the pattern of the rule of the compiled pipeline. The node
    that [From] builds carries the name of its type parameter. *)
Theorem default_category_filter (props : TypeStepProps) (ty : string)
    (src : source) (body : list duct.Ast) (depth : Z) (ts : typeStep) :
  (exists ts',
     OnEnterFrom depth
       {| duct.From_Type := ty; duct.Source := any_source src |} ts = Ok ts'
     /\ (source_cat src = [] ->
         eventPattern ts' = Some {| DetailType := [ty] |})
     /\ (source_cat src <> [] ->
         eventPattern ts' = Some {| DetailType := source_cat src |}))
  /\ (well_formed
        {| duct.Seq :=
             duct.NodeFrom {| duct.From_Type := ty; duct.Source := any_source src |}
               :: body |} ->
      exists ts' sm rule,
        duct.run
          (duct.trace
             {| duct.Seq :=
                  duct.NodeFrom
                    {| duct.From_Type := ty; duct.Source := any_source src |}
                    :: body |})
          (NewTypeStep props) = Ok ts'
        /\ artifacts (Construct ts') = [ChildStateMachine sm; ChildRule rule]
        /\ (source_cat src = [] ->
            rule_EventPattern rule = Some {| DetailType := [ty] |})
        /\ (source_cat src <> [] ->
            rule_EventPattern rule = Some {| DetailType := source_cat src |}))
  /\ (forall (A : gotype) (in_ : option IEventBus) (cat : list string),
      duct.levels (From A in_ cat)
      = [[duct.NodeFrom
            {| duct.From_Type := duct.nameOf A;
               duct.Source :=
                 any_source {| source_cat := cat; source_bus := in_ |} |}]]).
Proof.
  assert (Hpat : (source_cat src = [] ->
                  pattern_of ty src = {| DetailType := [ty] |})
                 /\ (source_cat src <> [] ->
                     pattern_of ty src = {| DetailType := source_cat src |})).
  { unfold pattern_of. destruct (source_cat src); split; intros H;
      try reflexivity; try discriminate; contradiction. }
  destruct Hpat as [Hnil Hcat].
  repeat apply conj.
  - unfold OnEnterFrom. cbn [duct.Source duct.From_Type]. rewrite pattern_of_eq.
    eexists. split; [reflexivity|]. cbn.
    split; intros H; f_equal; auto.
  - intros (ty' & src' & b & body' & Hroot & Hb & Hr & Hc & _ & _).
    cbn in Hroot. injection Hroot as -> -> ->.
    destruct (compile_from props ty' src' b body' Hb Hr Hc)
      as (ts' & sm & E & _ & _ & _ & Ha).
    exists ts', sm. eexists. split; [exact E|]. split; [exact Ha|].
    cbn. split; intros H; f_equal; auto.
  - reflexivity.
Qed.

Lemma structural_completeness_witness :
  exists ts' sm rule,
    duct.run (duct.trace (duct.root TestTypeStep.p6))
      (NewTypeStep TestTypeStep.props) = Ok ts'
    /\ length (stack ts') = 1%nat
    /\ artifacts (Construct ts') = [ChildStateMachine sm; ChildRule rule]
    /\ DefinitionBody sm = mjoin (head (stack ts'))
    /\ rule_targets rule = [sm].
Proof.
  apply (structural_completeness TestTypeStep.props (duct.root TestTypeStep.p6)).
  eexists. eexists. eexists. eexists.
  split; [vm_compute; reflexivity|].
  repeat split.
Defined.

Lemma default_category_filter_witness :
  exists ts' sm rule,
    duct.run (duct.trace (duct.root TestTypeStep.p6))
      (NewTypeStep TestTypeStep.props) = Ok ts'
    /\ artifacts (Construct ts') = [ChildStateMachine sm; ChildRule rule]
    /\ rule_EventPattern rule = Some {| DetailType := ["string"] |}.
Proof.
  destruct (default_category_filter TestTypeStep.props "string"
              {| source_cat := []; source_bus := Some TestTypeStep.event |}
              (tl (duct.Seq (duct.root TestTypeStep.p6))) 0
              (NewTypeStep TestTypeStep.props))
    as (_ & H & _).
  destruct H as (ts' & sm & rule & E & Ha & Hnil & _).
  - eexists. eexists. eexists. eexists.
    split; [vm_compute; reflexivity|]. repeat split.
  - exists ts', sm, rule. split; [exact E|]. split; [exact Ha|].
    apply Hnil. reflexivity.
Defined.

(* ===================================================================== *)
(** ** Unrecognised payloads *)
(* ===================================================================== *)

Lemma offending_fails (c : duct.Call) (msg : string) (ts : typeStep) :
  offending c = Some msg -> duct.invoke c ts = Err msg ts.
Proof.
  destruct c as [d n|d n|d n|d n|d n|d n|d n|d n|d n|d n]; cbn; try discriminate.
  - unfold OnEnterMap. destruct (duct.F n); intros H; try discriminate;
      injection H as <-; reflexivity.
  - unfold OnEnterFrom. destruct (duct.Source n); intros H; try discriminate;
      injection H as <-; reflexivity.
  - unfold OnEnterYield. destruct (duct.Target n); intros H; try discriminate;
      injection H as <-; reflexivity.
Qed.

Lemma run_invariant_on (Q : duct.Call -> Prop) (P : typeStep -> Prop) :
  (forall c ts ts', Q c -> P ts -> state_of (duct.invoke c ts) = Some ts' -> P ts') ->
  forall cs ts ts',
    Forall Q cs -> P ts -> state_of (duct.run cs ts) = Some ts' -> P ts'.
Proof.
  intros Hstep cs. induction cs as [|c cs IH]; intros ts ts' HQ HP H.
  - injection H as <-. exact HP.
  - apply Forall_cons in HQ as [HQc HQ]. cbn [duct.run] in H.
    destruct (duct.invoke c ts) as [t|e t|why] eqn:E.
    + eapply IH; [exact HQ| |exact H]. eapply Hstep; [exact HQc|exact HP|].
      rewrite E. reflexivity.
    + eapply Hstep; [exact HQc|exact HP|]. rewrite E. exact H.
    + discriminate.
Qed.

Lemma calls_not_leave_morphism (n : duct.Ast) : forall depth,
  Forall not_leave_morphism (duct.calls depth n).
Proof.
  induction n as [x|x|l IHl|x] using Ast_induction; intros depth;
    cbn [duct.calls]; repeat constructor.
  apply Forall_app. split; [|repeat constructor].
  induction IHl as [|n l Hn _ IH]; cbn [flat_map]; [constructor|].
  apply Forall_app. split; [apply Hn|exact IH].
Qed.

Lemma body_not_leave_morphism (l : list duct.Ast) depth :
  Forall not_leave_morphism (flat_map (duct.calls depth) l).
Proof.
  induction l as [|n l IH]; cbn [flat_map]; [constructor|].
  apply Forall_app. split; [apply calls_not_leave_morphism|exact IH].
Qed.

Lemma invoke_no_artifact (c : duct.Call) (ts ts' : typeStep) :
  not_leave_morphism c ->
  parallel ts /\ artifacts (Construct ts) = [] ->
  state_of (duct.invoke c ts) = Some ts' ->
  parallel ts' /\ artifacts (Construct ts') = [].
Proof.
  intros Hc [Hp Ha] H. split; [exact (invoke_parallel c ts ts' Hp H)|].
  pose proof (invoke_step c ts Hp) as Hs.
  destruct Hs; try (injection H as <-); try discriminate;
    try contradiction; try exact Ha; cbn.
  - rewrite (artifacts_states _ [seq_name name]). exact Ha.
  - rewrite artifacts_invoke_children. exact Ha.
  - rewrite (artifacts_states _ ["Sink"]). exact Ha.
Qed.

(** A compilation that ends on an error has created no artifact. *)
Lemma failed_compilation (props : TypeStepProps) (root : duct.AstSeq) e ts' :
  duct.run (duct.trace root) (NewTypeStep props) = Err e ts' ->
  artifacts (Construct ts') = [].
Proof.
  unfold duct.trace.
  change (duct.EnterMorphism 0 root
            :: flat_map (duct.calls 1) (duct.Seq root)
            ++ [duct.LeaveMorphism 0 root])
    with ((duct.EnterMorphism 0 root :: flat_map (duct.calls 1) (duct.Seq root))
            ++ [duct.LeaveMorphism 0 root]).
  rewrite run_app. intros H.
  assert (Hinv : forall t,
             state_of (duct.run (duct.EnterMorphism 0 root
                                   :: flat_map (duct.calls 1) (duct.Seq root))
                         (NewTypeStep props)) = Some t ->
             parallel t /\ artifacts (Construct t) = []).
  { intros t Ht.
    eapply (run_invariant_on not_leave_morphism
              (fun t => parallel t /\ artifacts (Construct t) = []));
      [intros; eapply invoke_no_artifact; eassumption| | |exact Ht].
    - constructor; [exact I|apply body_not_leave_morphism].
    - split; [apply NewTypeStep_parallel|reflexivity]. }
  destruct (duct.run (duct.EnterMorphism 0 root :: _) _) as [t|e' t|why] eqn:E.
  - destruct (Hinv t eq_refl) as [_ Ha].
    cbn [duct.run duct.invoke typeStep_Visitor duct.OnLeaveMorphism] in H.
    unfold OnLeaveMorphism in H.
    destruct (negb _); [injection H as _ <-; exact Ha|].
    destruct (bus t); [discriminate|injection H as _ <-; exact Ha].
  - injection H as _ <-. apply (Hinv t eq_refl).
  - discriminate.
Qed.

Lemma run_reaches (cs1 cs2 : list duct.Call) (c : duct.Call) (ts ts' : typeStep) :
  duct.run (cs1 ++ c :: cs2) ts = Ok ts' ->
  exists t1 t2, duct.run cs1 ts = Ok t1 /\ duct.invoke c t1 = Ok t2.
Proof.
  rewrite run_app. destruct (duct.run cs1 ts) as [t1| |]; try discriminate.
  cbn [duct.run]. destruct (duct.invoke c t1) as [t2| |] eqn:E; try discriminate.
  intros _. exists t1, t2. split; [reflexivity|exact E].
Qed.

(** C8. A callback given a payload it does not recognise returns an
    error that names the type of the payload, and leaves the state (so
    every chain) as it was. A compilation that makes such a call does
    not succeed, and if it ends on an error the scope holds no state
    machine and no rule. *)
Theorem unrecognised_payload_aborts (depth : Z) (ts : typeStep) :
  (forall node, (forall f, duct.F node <> any_lambda f) ->
     OnEnterMap depth node ts
     = Err ("unkown compute type: " +:+ typeName (duct.F node)) ts)
  /\ (forall node, (forall f, duct.Source node <> any_source f) ->
     OnEnterFrom depth node ts
     = Err ("unkown input type: " +:+ typeName (duct.Source node)) ts)
  /\ (forall node,
     (forall f, duct.Target node <> any_IQueue f) ->
     (forall f, duct.Target node <> any_eventbus f) ->
     OnEnterYield depth node ts
     = Err ("unkown reply type: " +:+ typeName (duct.Target node)) ts)
  /\ (forall props root c msg,
     In c (duct.trace root) -> offending c = Some msg ->
     match duct.run (duct.trace root) (NewTypeStep props) with
     | Ok _ => False
     | Err e ts' => artifacts (Construct ts') = []
     | Panic _ => True
     end).
Proof.
  repeat apply conj.
  - intros node H. apply OnEnterMap_other. exact H.
  - intros node H. unfold OnEnterFrom.
    destruct (duct.Source node) eqn:E; try reflexivity. exfalso. eapply H. reflexivity.
  - intros node H1 H2. unfold OnEnterYield.
    destruct (duct.Target node) eqn:E; try reflexivity; exfalso;
      [eapply H2|eapply H1]; reflexivity.
  - intros props root c msg Hin Hoff.
    destruct (duct.run (duct.trace root) (NewTypeStep props)) as [t|e t|why] eqn:E.
    + apply in_split in Hin as (cs1 & cs2 & Hsplit). rewrite Hsplit in E.
      apply run_reaches in E as (t1 & t2 & _ & E).
      rewrite (offending_fails c msg t1 Hoff) in E. discriminate.
    + eapply failed_compilation. exact E.
    + exact I.
Qed.

Lemma unrecognised_payload_aborts_witness :
  match
    duct.run
      (duct.trace
         {| duct.Seq :=
              [duct.NodeFrom
                 {| duct.From_Type := "string";
                    duct.Source :=
                      any_source {| source_cat := [];
                                    source_bus := Some TestTypeStep.event |} |};
               duct.NodeMap {| duct.F := any_other "func(string) string" |}] |})
      (NewTypeStep TestTypeStep.props)
  with
  | Ok _ => False
  | Err e ts' => artifacts (Construct ts') = []
  | Panic _ => True
  end.
Proof.
  apply (proj2 (proj2 (proj2 (unrecognised_payload_aborts 0
           (NewTypeStep TestTypeStep.props))))
         TestTypeStep.props _
         (duct.EnterMap 1 {| duct.F := any_other "func(string) string" |})
         "unkown compute type: func(string) string").
  - cbn. auto.
  - reflexivity.
Defined.

(* ===================================================================== *)
(** ** Dead-letter wiring *)
(* ===================================================================== *)

Lemma level_states_snoc (s : list (option Chain)) (c : option Chain) :
  level_states (s ++ [c]) = level_states s ++ default [] c.
Proof. unfold level_states. rewrite flat_map_app. cbn. rewrite app_nil_r. reflexivity. Qed.

Lemma In_grow (c : option Chain) (f t : State) :
  In t (grow c f) -> In t (default [] c) \/ t = f.
Proof.
  destruct c as [c|]; unfold grow, Next, Chain_Start; cbn [default].
  - rewrite in_app_iff. cbn [In]. intuition auto.
  - cbn [In]. intuition auto.
Qed.

Lemma machine_states_states (cs : list Child) (ids : list string) :
  machine_states (cs ++ map ChildState ids) = machine_states cs.
Proof.
  unfold machine_states. rewrite flat_map_app.
  replace (flat_map _ (map ChildState ids)) with (@nil State);
    [apply app_nil_r|].
  induction ids; cbn; trivial.
Qed.

Lemma machine_states_invoke_children cs q uuid :
  machine_states (cs ++ invoke_children q uuid) = machine_states cs.
Proof.
  destruct q; unfold invoke_children.
  - apply (machine_states_states cs ["Map" +:+ uuid; "Try" +:+ uuid; "Err" +:+ uuid]).
  - apply (machine_states_states cs ["Map" +:+ uuid]).
Qed.

Lemma within_leaf (s t : State) :
  within s t ->
  match t with
  | NewSqsSendMessage _ _ _ | NewEventBridgePutEvents _ _ _ _ _ | NewFail _ => s = t
  | _ => True
  end.
Proof. intros H. destruct H; [destruct s; trivial|exact I..]. Qed.

Lemma within_invoke_state q (ts : typeStep) f s :
  DeadLetterQueue ts = q -> within s (invoke_state ts f) -> catches_ok q s.
Proof.
  intros <- H. unfold invoke_state in H.
  inversion H as [|? ? ? ? ? ? ?|id path f' cs h rp t Hin Ht Hw]; subst.
  - reflexivity.
  - destruct (DeadLetterQueue ts) as [q|]; cbn in Hin; [|contradiction].
    destruct Hin as [Hin|[]]. injection Hin as <- <-.
    cbn in Ht. destruct Ht as [<-|[<-|[]]];
      apply within_leaf in Hw; subst; exact I.
Qed.

Lemma wired_step q (c : duct.Call) (ts ts' : typeStep) :
  parallel ts /\ wired q ts ->
  state_of (duct.invoke c ts) = Some ts' ->
  parallel ts' /\ wired q ts'.
Proof.
  intros [Hp [Hq Hw]] H. split; [exact (invoke_parallel c ts ts' Hp H)|].
  pose proof (invoke_step c ts Hp) as Hs.
  destruct Hs; try (injection H as <-); try discriminate;
    try (split; [exact Hq|exact Hw]);
    (split; [exact Hq|]); cbn [stack Construct set_args set_names set_stack
                               set_Construct set_source create];
    intros t Ht s0 Hs0.
  - (* the state machine *)
    destruct Ht as [Ht|Ht]; [apply (Hw t); [left; exact Ht|exact Hs0]|].
    unfold machine_states in Ht. rewrite flat_map_app in Ht.
    apply in_app_iff in Ht as [Ht|Ht];
      [apply (Hw t); [right; exact Ht|exact Hs0]|].
    cbn [flat_map DefinitionBody app] in Ht. rewrite app_nil_r in Ht.
    apply (Hw t); [left|exact Hs0].
    rewrite index_0 in Ht. unfold level_states.
    destruct (stack ts) as [|c0 st]; [contradiction|].
    cbn [head mjoin option_join flat_map] in *.
    apply in_app_iff. left. exact Ht.
  - (* a level is opened *)
    rewrite level_states_snoc in Ht. cbn in Ht. rewrite app_nil_r in Ht.
    apply (Hw t); assumption.
  - (* a level is closed *)
    match goal with E : stack ts = _ |- _ => rename E into Est end.
    rewrite (machine_states_states _ [seq_name name]) in Ht.
    destruct Ht as [Ht|Ht]; [|apply (Hw t); [right; exact Ht|exact Hs0]].
    rewrite level_states_snoc in Ht. apply in_app_iff in Ht as [Ht|Ht].
    + apply (Hw t); [left|exact Hs0]. rewrite Est.
      unfold level_states. rewrite flat_map_app. apply in_app_iff. left. exact Ht.
    + cbn in Ht. apply In_grow in Ht as [Ht | ->].
      * apply (Hw t); [left|exact Hs0]. rewrite Est.
        unfold level_states. rewrite flat_map_app. apply in_app_iff. right.
        cbn. apply in_app_iff. left. exact Ht.
      * inversion Hs0 as [|id items mc sub' t' Hin Hw'|]; subst; [exact I|].
        apply (Hw t'); [left|exact Hw']. rewrite Est.
        unfold level_states. rewrite flat_map_app. apply in_app_iff. right.
        cbn. apply in_app_iff. right. rewrite app_nil_r. exact Hin.
  - (* an invoke state *)
    match goal with E : stack ts = _ |- _ => rename E into Est end.
    rewrite machine_states_invoke_children in Ht.
    destruct Ht as [Ht|Ht]; [|apply (Hw t); [right; exact Ht|exact Hs0]].
    rewrite level_states_snoc in Ht. apply in_app_iff in Ht as [Ht|Ht].
    + apply (Hw t); [left|exact Hs0]. rewrite Est, level_states_snoc.
      apply in_app_iff. left. exact Ht.
    + cbn in Ht. apply In_grow in Ht as [Ht | ->].
      * apply (Hw t); [left|exact Hs0]. rewrite Est, level_states_snoc.
        apply in_app_iff. right. exact Ht.
      * eapply within_invoke_state; eassumption.
  - (* a sink *)
    match goal with E : stack ts = _ |- _ => rename E into Est end.
    rewrite (machine_states_states _ ["Sink"]) in Ht.
    destruct Ht as [Ht|Ht]; [|apply (Hw t); [right; exact Ht|exact Hs0]].
    rewrite level_states_snoc in Ht. apply in_app_iff in Ht as [Ht|Ht].
    + apply (Hw t); [left|exact Hs0]. rewrite Est, level_states_snoc.
      apply in_app_iff. left. exact Ht.
    + cbn in Ht. apply In_grow in Ht as [Ht | ->].
      * apply (Hw t); [left|exact Hs0]. rewrite Est, level_states_snoc.
        apply in_app_iff. right. exact Ht.
      * match goal with E : sink_state ts _ = Some _ |- _ => rename E into Esink end.
        unfold sink_state in Esink.
        destruct (duct.Target _); try discriminate; injection Esink as <-;
          apply within_leaf in Hs0; subst; exact I.
Qed.

Lemma NewTypeStep_wired (props : TypeStepProps) :
  wired (props_DeadLetterQueue props) (NewTypeStep props).
Proof. split; [reflexivity|]. cbn. intros t [[]|[]]. Qed.

(** C3. With a dead-letter queue [q] every invoke state that
    [OnEnterMap] emits has exactly one catch branch: the message to [q]
    followed by the failure state, with the error at ["$.error"];
    without one it has none. So does every state, at any depth, of the
    chain levels and of the state machines of any state reached from
    [NewTypeStep]: without a queue no state has a catch branch. *)
Theorem dead_letter_wiring (props : TypeStepProps) :
  (forall depth node f (ts : typeStep),
     parallel ts -> duct.F node = any_lambda f ->
     exists ts' id path catches,
       OnEnterMap depth node ts = Ok ts'
       /\ emitted ts' = Some (NewLambdaInvoke id path (lambda_f f) catches)
       /\ match DeadLetterQueue ts with
          | Some q =>
              catches
              = [([NewSqsSendMessage ("Try" +:+ function_id (lambda_f f)) q "$";
                   NewFail ("Err" +:+ function_id (lambda_f f))], "$.error")]
          | None => catches = []
          end)
  /\ (forall cs ts,
     state_of (duct.run cs (NewTypeStep props)) = Some ts ->
     DeadLetterQueue ts = props_DeadLetterQueue props
     /\ forall t s,
          In t (level_states (stack ts)) \/ In t (machine_states (Construct ts)) ->
          within s t ->
          match props_DeadLetterQueue props with
          | Some q =>
              forall id path fn catches,
                s = NewLambdaInvoke id path fn catches ->
                catches
                = [([NewSqsSendMessage ("Try" +:+ function_id fn) q "$";
                     NewFail ("Err" +:+ function_id fn)], "$.error")]
          | None => catches_of s = []
          end).
Proof.
  split.
  - intros depth node f ts Hp Hf. rewrite (OnEnterMap_lambda depth node ts f Hf).
    match goal with
    | |- context [append ?s ?t] =>
        destruct (append_parallel s t Hp) as (ts' & E & _ & _ & He & _)
    end.
    exists ts'. do 3 eexists. split; [exact E|]. split; [exact He|].
    destruct (DeadLetterQueue ts); reflexivity.
  - intros cs ts H.
    assert (Hinv : parallel ts /\ wired (props_DeadLetterQueue props) ts).
    { eapply (run_invariant
                (fun t => parallel t /\ wired (props_DeadLetterQueue props) t));
        [intros; eapply wired_step; eassumption| |exact H].
      split; [apply NewTypeStep_parallel|apply NewTypeStep_wired]. }
    destruct Hinv as [_ [Hq Hw]]. split; [exact Hq|].
    intros t s Ht Hs. specialize (Hw t Ht s Hs).
    destruct (props_DeadLetterQueue props) as [q|].
    + intros id path fn catches ->. exact Hw.
    + destruct s; try reflexivity. exact Hw.
Qed.

Lemma dead_letter_wiring_witness :
  exists ts,
    duct.run (duct.trace (duct.root TestTypeStep.p6))
      (NewTypeStep TestTypeStep.props) = Ok ts
    /\ DeadLetterQueue ts = Some TestTypeStep.queue.
Proof.
  eexists. split; [vm_compute; reflexivity|].
  apply (proj2 (dead_letter_wiring TestTypeStep.props)
           (duct.trace (duct.root TestTypeStep.p6))).
  vm_compute. reflexivity.
Defined.

(* ===================================================================== *)
(** ** Names of the fan-outs *)
(* ===================================================================== *)

Lemma append_nil_r (s : string) : s +:+ "" = s.
Proof.
  induction s as [|a s IH]; [reflexivity|].
  change (String a (s +:+ "") = String a s). f_equal. exact IH.
Qed.

Lemma append_assoc (s1 s2 s3 : string) : (s1 +:+ s2) +:+ s3 = s1 +:+ (s2 +:+ s3).
Proof.
  induction s1 as [|a s1 IH]; [reflexivity|].
  change (String a ((s1 +:+ s2) +:+ s3) = String a (s1 +:+ (s2 +:+ s3))).
  f_equal. exact IH.
Qed.

Lemma concat_ids_grow (c : option Chain) (f : State) :
  concat_ids (Some (grow c f)) = concat_ids c +:+ Id f.
Proof.
  destruct c as [c|]; cbn.
  - unfold Next. induction c as [|x c IH]; cbn.
    + apply append_nil_r.
    + rewrite IH. symmetry. apply append_assoc.
  - apply append_nil_r.
Qed.

Lemma named_snoc (s : list (option Chain)) (n : list string) c x :
  length s = length n ->
  Forall2 (fun c n => n = concat_ids c) (s ++ [c]) (n ++ [x]) ->
  Forall2 (fun c n => n = concat_ids c) s n /\ x = concat_ids c.
Proof.
  intros Hlen H. apply Forall2_app_inv in H; [|exact Hlen].
  destruct H as [H1 H2]. split; [exact H1|].
  inversion H2; subst. reflexivity.
Qed.

Lemma named_snoc_intro (s : list (option Chain)) (n : list string) c x :
  Forall2 (fun c n => n = concat_ids c) s n -> x = concat_ids c ->
  Forall2 (fun c n => n = concat_ids c) (s ++ [c]) (n ++ [x]).
Proof. intros H1 H2. apply Forall2_app; [exact H1|]. repeat constructor. exact H2. Qed.

Lemma named_step (c : duct.Call) (ts ts' : typeStep) :
  parallel ts /\ named ts ->
  state_of (duct.invoke c ts) = Some ts' ->
  parallel ts' /\ named ts'.
Proof.
  intros [Hp Hn] H. split; [exact (invoke_parallel c ts ts' Hp H)|].
  pose proof (invoke_step c ts Hp) as Hs. unfold named in *.
  destruct Hs; try (injection H as <-); try discriminate; try exact Hn;
    cbn [stack names set_args set_names set_stack set_Construct set_source create];
    repeat match goal with
           | E : stack ts = _ |- _ => rewrite E in Hn; clear E
           | E : names ts = _ |- _ => rewrite E in Hn; clear E
           end.
  - apply named_snoc_intro; [exact Hn|reflexivity].
  - change [outer; sub] with ([outer] ++ [sub]) in Hn.
    change [nouter; name] with ([nouter] ++ [name]) in Hn.
    rewrite !app_assoc in Hn.
    apply named_snoc in Hn as [Hn _]; [|rewrite !length_app; cbn; lia].
    apply named_snoc in Hn as [Hn Ho]; [|assumption].
    apply named_snoc_intro; [exact Hn|].
    rewrite concat_ids_grow, Ho. reflexivity.
  - apply named_snoc in Hn as [Hn Ho]; [|assumption].
    apply named_snoc_intro; [exact Hn|].
    rewrite concat_ids_grow, Ho. reflexivity.
  - apply named_snoc in Hn as [Hn Ho]; [|assumption].
    apply named_snoc_intro; [exact Hn|].
    rewrite concat_ids_grow, Ho. reflexivity.
Qed.

Lemma reachable_named props cs ts :
  state_of (duct.run cs (NewTypeStep props)) = Some ts -> parallel ts /\ named ts.
Proof.
  apply (run_invariant (fun t => parallel t /\ named t)).
  - intros. eapply named_step; eassumption.
  - split; [apply NewTypeStep_parallel|]. repeat constructor.
Qed.

Lemma strip_grow (c : option Chain) (f : State) :
  strip_level (Some (grow c f)) = Some (grow (strip_level c) (strip f)).
Proof.
  destruct c as [c|]; cbn; [|reflexivity].
  unfold Next. rewrite map_app. reflexivity.
Qed.

Lemma skeleton_snoc (st st' s : list (option Chain)) (c : option Chain) :
  map strip_level st' = map strip_level st -> st = s ++ [c] ->
  exists s' c',
    st' = s' ++ [c'] /\ map strip_level s' = map strip_level s
    /\ strip_level c' = strip_level c /\ length s' = length s.
Proof.
  intros H ->. rewrite map_app in H.
  apply map_eq_app in H as (s' & l & -> & Hs & Hl).
  apply map_eq_cons in Hl as (c' & tl & -> & Hc & Htl).
  apply map_eq_nil in Htl as ->.
  exists s', c'. repeat split; try assumption.
  rewrite <- (length_map strip_level s'), Hs. apply length_map.
Qed.

Lemma alike_parallel (t1 t2 : typeStep) :
  alike t1 t2 -> parallel t1 -> parallel t2.
Proof.
  intros (Hn & Hs & _) [Hl Hpos]. unfold skeleton in Hs.
  assert (length (stack t2) = length (stack t1))
    by (rewrite <- (length_map strip_level), <- Hs; apply length_map).
  split; [rewrite <- Hn|]; lia.
Qed.

(** A callback that returns in one of two alike states returns in the
    other, and leaves them alike. *)
Lemma alike_step (c : duct.Call) (t1 t2 t1' : typeStep) :
  parallel t1 -> alike t1 t2 -> duct.invoke c t1 = Ok t1' ->
  exists t2', duct.invoke c t2 = Ok t2' /\ alike t1' t2'.
Proof.
  intros Hp Ha E. pose proof (alike_parallel t1 t2 Ha Hp) as Hp2.
  pose proof (invoke_step c t1 Hp) as Hs. rewrite E in Hs.
  destruct Ha as (Hn & Hk & Hargs & Hbus & Hpat). unfold skeleton in Hk.
  inversion Hs; subst.
  - exists t2. split; [destruct c; try contradiction; reflexivity|].
    repeat split; assumption.
  - (* the artifacts *)
    cbn [duct.invoke typeStep_Visitor duct.OnLeaveMorphism]. unfold OnLeaveMorphism.
    replace (length (stack t2)) with 1%nat
      by (rewrite <- (length_map strip_level (stack t2)), <- Hk, length_map; auto).
    rewrite <- Hbus. match goal with H : bus t1 = Some _ |- _ => rewrite H end.
    eexists. split; [reflexivity|]. repeat split; assumption.
  - eexists. split; [reflexivity|]. unfold alike, skeleton. cbn.
    rewrite !map_app, Hn, Hk. repeat split; assumption.
  - (* a level is closed *)
    match goal with
    | Est : stack t1 = _, Enm : names t1 = _, El : length _ = length _,
      En : duct.Seq _ = _ |- _ =>
        change [outer; sub] with ([outer] ++ [sub]) in Est;
        rewrite app_assoc in Est;
        destruct (skeleton_snoc _ (stack t2) _ _ (eq_sym Hk) Est)
          as (s1 & sub' & Est2 & Hs1 & Hsub & Hl1);
        destruct (skeleton_snoc _ s1 _ _ Hs1 eq_refl)
          as (s2 & outer' & -> & Hs2 & Houter & Hl2);
        rewrite <- app_assoc in Est2; cbn [app] in Est2;
        rewrite Hn in Enm;
        cbn [duct.invoke typeStep_Visitor duct.OnLeaveSeq];
        rewrite (OnLeaveSeq_snoc _ _ t2 s2 outer' sub' _ _ _ _ _ Est2 Enm
                   ltac:(lia) En)
    end.
    eexists. split; [reflexivity|]. unfold alike, skeleton. cbn.
    rewrite !map_app. cbn [map].
    rewrite (strip_grow outer), (strip_grow outer'), Hs2, Houter. cbn [strip].
    fold (strip_level sub) (strip_level sub'). rewrite Hsub.
    repeat split; assumption.
  - (* an invoke state *)
    match goal with
    | Ef : duct.F _ = _, Est : stack t1 = _, Enm : names t1 = _,
      El : length _ = length _ |- _ =>
        destruct (skeleton_snoc _ (stack t2) _ _ (eq_sym Hk) Est)
          as (s1 & c' & Est2 & Hs1 & Hc & Hl1);
        rewrite Hn in Enm;
        cbn [duct.invoke typeStep_Visitor duct.OnEnterMap];
        rewrite (OnEnterMap_lambda _ _ t2 _ Ef);
        erewrite append_snoc; [|exact Est2|exact Enm|lia]
    end.
    eexists. split; [reflexivity|]. unfold alike, skeleton. cbn.
    rewrite !map_app. cbn [map].
    rewrite (strip_grow c0), (strip_grow c'), Hs1, Hc.
    unfold invoke_state. cbn [strip]. rewrite Hargs.
    repeat split; assumption.
  - eexists. split; [reflexivity|]. repeat split; assumption.
  - cbn [duct.invoke typeStep_Visitor duct.OnEnterFrom]. unfold OnEnterFrom.
    match goal with H : duct.Source _ = _ |- _ => rewrite H end.
    rewrite pattern_of_eq. eexists. split; [reflexivity|].
    repeat split; assumption.
  - (* a sink *)
    match goal with
    | Ef : sink_state t1 _ = _, Est : stack t1 = _, Enm : names t1 = _,
      El : length _ = length _ |- _ =>
        destruct (skeleton_snoc _ (stack t2) _ _ (eq_sym Hk) Est)
          as (s1 & c' & Est2 & Hs1 & Hc & Hl1);
        rewrite Hn in Enm;
        assert (Ef2 : sink_state t2 n = Some f)
          by (unfold sink_state in *; rewrite <- Hargs; exact Ef);
        cbn [duct.invoke typeStep_Visitor duct.OnEnterYield];
        rewrite (OnEnterYield_sink _ _ t2 _ Ef2);
        erewrite append_snoc; [|exact Est2|exact Enm|lia]
    end.
    eexists. split; [reflexivity|]. unfold alike, skeleton. cbn.
    rewrite !map_app. cbn [map].
    rewrite (strip_grow c0), (strip_grow c'), Hs1, Hc.
    repeat split; assumption.
Qed.

Lemma alike_run (cs : list duct.Call) : forall (t1 t2 t1' : typeStep),
  parallel t1 -> alike t1 t2 -> duct.run cs t1 = Ok t1' ->
  exists t2', duct.run cs t2 = Ok t2' /\ alike t1' t2'.
Proof.
  induction cs as [|c cs IH]; intros t1 t2 t1' Hp Ha H.
  - injection H as <-. exists t2. split; [reflexivity|exact Ha].
  - cbn [duct.run] in *.
    destruct (duct.invoke c t1) as [u1| |] eqn:E; try discriminate.
    destruct (alike_step c t1 t2 u1 Hp Ha E) as (u2 & E2 & Ha2).
    rewrite E2. apply (IH u1 u2 t1'); [|exact Ha2|exact H].
    apply (invoke_parallel c t1 u1 Hp). rewrite E. reflexivity.
Qed.

(** C6. In any state reached from [NewTypeStep], the map state that
    [OnLeaveSeq] emits for the sub-chain [sub] it pops is named ["Seq"]
    followed by the first 8 hexadecimal digits of the SHA-256 digest of
    the concatenation of the identifiers of the states of [sub]: the
    name is a function of these identifiers only. A second compilation
    of the same calls, by a builder of any properties, reaches a state
    with the same names and the same chains of states, catch branches
    apart: the same derived name for every fan-out. *)
Theorem fanout_naming (props : TypeStepProps) (cs : list duct.Call)
    (ts : typeStep) :
  duct.run cs (NewTypeStep props) = Ok ts ->
  (forall depth node ts',
     OnLeaveSeq depth node ts = Ok ts' ->
     exists sub first,
       last (stack ts) = Some sub
       /\ head (duct.Seq node) = Some first
       /\ emitted ts'
          = Some (NewMap
                    ("Seq" +:+
                       prefix 8
                         (hex.EncodeToString
                            (sha256.Sum256 (bytes_of (concat_ids sub)))))
                    "$.Payload" (jsii_Number (concurency_of first)) sub)
       /\ last (names ts') = Some (concat_ids (mjoin (last (stack ts')))))
  /\ (forall props',
     exists ts2,
       duct.run cs (NewTypeStep props') = Ok ts2
       /\ names ts2 = names ts
       /\ skeleton ts2 = skeleton ts).
Proof.
  intros Hrun. split.
  2:{ intros props'.
      destruct (alike_run cs (NewTypeStep props) (NewTypeStep props') ts)
        as (ts2 & E2 & Hn & Hk & _);
        [apply NewTypeStep_parallel|repeat split|exact Hrun|].
      exists ts2. repeat split; [exact E2|symmetry; exact Hn|symmetry; exact Hk]. }
  intros depth node ts' H.
  destruct (reachable_named props cs ts) as [Hp Hn]; [rewrite Hrun; reflexivity|].
  assert (Hn' : parallel ts' /\ named ts').
  { apply (named_step (duct.LeaveSeq depth node) ts ts'); [split; assumption|].
    cbn. rewrite H. reflexivity. }
  destruct (decide (length (stack ts) = 1%nat)) as [H1|H1].
  { pose proof (OnLeaveSeq_top_panics depth node ts H1) as E.
    rewrite H in E. discriminate. }
  destruct (duct.Seq node) as [|first rest] eqn:Hnode.
  { destruct node as [l]. cbn in Hnode. subst l.
    pose proof (OnLeaveSeq_empty_panics depth ts) as E. rewrite H in E. discriminate. }
  destruct (OnLeaveSeq_ok depth node ts Hp)
    as (first' & name & sub & t & Hh & Hln & Hls & E & He & _);
    [destruct Hp; lia|rewrite Hnode; discriminate|].
  rewrite Hnode in Hh. injection Hh as <-.
  rewrite H in E. injection E as <-.
  exists sub, first. split; [exact Hls|]. split; [reflexivity|].
  assert (Hname : name = concat_ids sub).
  { unfold named in Hn. destruct Hp as [Hl _].
    destruct (stack ts) as [|c0 s] using rev_ind; [discriminate|].
    destruct (names ts) as [|x0 n] using rev_ind; [discriminate|].
    rewrite last_snoc in Hls. rewrite last_snoc in Hln.
    injection Hls as ->. injection Hln as ->.
    apply named_snoc in Hn as [_ Hn]; [exact Hn|].
    rewrite !length_app in Hl. cbn in Hl. lia. }
  split; [rewrite He, Hname; reflexivity|].
  destruct Hn' as [[Hl' _] Hn']. unfold named in Hn'. unfold emitted in He.
  destruct (stack ts') as [|c0 s] using rev_ind.
  { cbn in He. discriminate. }
  destruct (names ts') as [|x0 n] using rev_ind.
  { rewrite length_app in Hl'. cbn in Hl'. lia. }
  apply named_snoc in Hn' as [_ Hn']; [|rewrite !length_app in Hl'; cbn in Hl'; lia].
  rewrite !last_snoc. cbn. f_equal. exact Hn'.
Qed.

Lemma fanout_naming_witness :
  let node := {| duct.Seq := fanout TestTypeStep.p4 |} in
  let cs := [duct.EnterSeq 1 node;
             duct.EnterMap 2 {| duct.F := any_lambda
               {| lambda_concurency := 1; lambda_f := {| function_id := "C" |} |} |}] in
  let start := NewTypeStep TestTypeStep.props in
  let ts := default start (state_of (duct.run cs start)) in
  let ts' := default start (state_of (OnLeaveSeq 1 node ts)) in
  exists sub first,
    emitted ts'
    = Some (NewMap
              ("Seq" +:+
                 prefix 8
                   (hex.EncodeToString
                      (sha256.Sum256 (bytes_of (concat_ids sub)))))
              "$.Payload" (jsii_Number (concurency_of first)) sub)
    /\ concat_ids sub = "MapC".
Proof.
  intros node cs start ts ts'.
  destruct (fanout_naming TestTypeStep.props cs ts) as [H _].
  - vm_compute. reflexivity.
  - destruct (H 1 node ts') as (sub & first & Hs & _ & He & _).
    + vm_compute. reflexivity.
    + exists sub, first. split; [exact He|].
      vm_compute in Hs. injection Hs as <-. reflexivity.
Defined.

(* ===================================================================== *)
(** ** The pipelines of the algebra are well formed *)
(* ===================================================================== *)

Lemma list_sum_cons (x : nat) (l : list nat) :
  list_sum (x :: l) = (x + list_sum l)%nat.
Proof. reflexivity. Qed.

Lemma plain_facts (o : list duct.Ast) :
  Forall plain o ->
  forallb recognised o = true
  /\ list_sum (map count_from o) = 0%nat
  /\ list_sum (map count_yield o) = 0%nat.
Proof.
  induction 1 as [|n o [f ->] _ (IH1 & IH2 & IH3)]; [repeat split|].
  rewrite !map_cons, !list_sum_cons, IH2, IH3.
  cbn [forallb recognised duct.F count_from count_yield]. rewrite IH1.
  repeat split.
Qed.

Lemma ends_in_yield_snoc (o : list duct.Ast) (x : duct.Ast) :
  ends_in_yield (duct.NodeSeq (o ++ [x])) = ends_in_yield x.
Proof.
  induction o as [|n o IH]; [reflexivity|].
  cbn [app]. destruct (o ++ [x]) as [|y r] eqn:E.
  - destruct o; discriminate.
  - exact IH.
Qed.

Lemma good_tail_snoc (o : list duct.Ast) (x : duct.Ast) :
  Forall plain o -> recognised x = true -> count_from x = 0%nat ->
  count_yield x = 1%nat -> ends_in_yield x = true ->
  good_tail (o ++ [x]).
Proof.
  intros Ho Hr Hf Hy He. destruct (plain_facts o Ho) as (H1 & H2 & H3).
  unfold good_tail. rewrite forallb_app, !map_app, !list_sum_app, H1, H2, H3.
  rewrite ends_in_yield_snoc. cbn. rewrite Hr, Hf, Hy, He.
  repeat split. destruct o; discriminate.
Qed.

Lemma good_tail_seq (o inner : list duct.Ast) :
  Forall plain o -> good_tail inner -> good_tail (o ++ [duct.NodeSeq inner]).
Proof.
  intros Ho (Hne & Hr & Hf & Hy & He).
  apply good_tail_snoc; try assumption.
  cbn [recognised]. destruct inner; [contradiction|exact Hr].
Qed.

Lemma close_good (pre : list (list duct.Ast)) : forall inner x l0,
  good_tail inner -> Forall (Forall plain) pre -> Forall plain l0 ->
  exists body,
    duct.close inner (pre ++ [duct.NodeFrom x :: l0]) = duct.NodeFrom x :: body
    /\ good_tail body.
Proof.
  induction pre as [|o pre IH]; intros inner x l0 Hg Hpre Hl0.
  - exists (l0 ++ [duct.NodeSeq inner]). split; [reflexivity|].
    apply good_tail_seq; assumption.
  - apply Forall_cons in Hpre as [Ho Hpre]. cbn [app duct.close].
    apply IH; [apply good_tail_seq; assumption|assumption..].
Qed.

Lemma linear_levels {A B : gotype} (m : duct.Morphism A B) :
  linear m ->
  exists pre src b l0,
    duct.levels m
    = pre ++ [duct.NodeFrom {| duct.From_Type := duct.nameOf A;
                               duct.Source := any_source src |} :: l0]
    /\ source_bus src = Some b
    /\ Forall (Forall plain) pre
    /\ Forall plain l0.
Proof.
  induction 1 as [A b cat|A B C f m _ IH|A B C f m _ IH|A B C n f m _ IH|A B m _ IH].
  - exists [], {| source_cat := cat; source_bus := Some b |}, b, [].
    repeat split; constructor.
  - destruct IH as (pre & src & b & l0 & E & Hb & Hpre & Hl0).
    unfold Join. cbn [duct.levels]. rewrite E.
    destruct pre as [|o pre].
    + exists [], src, b, (l0 ++ [duct.NodeMap {| duct.F := any_lambda
              {| lambda_concurency := 1; lambda_f := F_F f |} |}]).
      repeat split; try assumption.
      apply Forall_app. split; [assumption|]. repeat constructor. eexists. reflexivity.
    + apply Forall_cons in Hpre as [Ho Hpre].
      exists ((o ++ [duct.NodeMap {| duct.F := any_lambda
              {| lambda_concurency := 1; lambda_f := F_F f |} |}]) :: pre), src, b, l0.
      repeat split; try assumption.
      constructor; [|assumption].
      apply Forall_app. split; [assumption|]. repeat constructor. eexists. reflexivity.
  - destruct IH as (pre & src & b & l0 & E & Hb & Hpre & Hl0).
    unfold Lift. cbn [duct.levels]. rewrite E.
    eexists (_ :: pre), src, b, l0. repeat split; try assumption.
    constructor; [|assumption]. repeat constructor. eexists. reflexivity.
  - destruct IH as (pre & src & b & l0 & E & Hb & Hpre & Hl0).
    unfold LiftP. cbn [duct.levels]. rewrite E.
    eexists (_ :: pre), src, b, l0. repeat split; try assumption.
    constructor; [|assumption]. repeat constructor. eexists. reflexivity.
  - destruct IH as (pre & src & b & l0 & E & Hb & Hpre & Hl0).
    unfold Wrap. cbn [duct.levels]. rewrite E.
    exists ([] :: pre), src, b, l0. repeat split; try assumption.
    constructor; [constructor|assumption].
Qed.

(** A linear pipeline ended by a recognised target is well formed. *)
Lemma yield_well_formed {A B : gotype} (m : duct.Morphism A B) (target : any) :
  linear m ->
  recognised (duct.NodeYield {| duct.Yield_Type := duct.nameOf B;
                                duct.Target := target |}) = true ->
  well_formed (duct.root (duct.Yield target m)).
Proof.
  intros Hm Hr. destruct (linear_levels m Hm) as (pre & src & b & l0 & E & Hb & Hpre & Hl0).
  unfold duct.root. cbn [duct.levels]. rewrite E.
  set (y := duct.NodeYield _) in *.
  assert (Hy : forall o, Forall plain o -> good_tail (o ++ [y]))
    by (intros o Ho; apply good_tail_snoc; try assumption; reflexivity).
  destruct pre as [|o pre]; cbn [app duct.push].
  - destruct (Hy l0 Hl0) as (_ & H1 & H2 & H3 & H4).
    exists (duct.nameOf A), src, b, (l0 ++ [y]). repeat split; assumption.
  - apply Forall_cons in Hpre as [Ho Hpre].
    destruct (close_good pre (o ++ [y])
                {| duct.From_Type := duct.nameOf A; duct.Source := any_source src |}
                l0 (Hy o Ho) Hpre Hl0)
      as (body & Eb & _ & H1 & H2 & H3 & H4).
    rewrite Eb.
    exists (duct.nameOf A), src, b, body. repeat split; assumption.
Qed.

(** The pipelines of the public algebra that end in [ToQueue] or in
    [ToEventBus] are well formed. *)
Lemma algebra_well_formed {A B : gotype} (m : duct.Morphism A B) :
  linear m ->
  (forall q, well_formed (duct.root (ToQueue q m)))
  /\ (forall source bus cat, well_formed (duct.root (ToEventBus source bus m cat))).
Proof.
  intros Hm. split; intros; apply yield_well_formed; trivial.
Qed.

(** [StateMachine] on a linear pipeline sent to a queue does not panic:
    it returns with one state machine and one rule targeting it. *)
Lemma StateMachine_linear {A B : gotype} (props : TypeStepProps)
    (m : duct.Morphism A B) (q : IQueue) :
  linear m ->
  exists ts' sm rule,
    StateMachine (NewTypeStep props) (ToQueue q m) = Ok ts'
    /\ length (stack ts') = 1%nat
    /\ artifacts (Construct ts') = [ChildStateMachine sm; ChildRule rule]
    /\ rule_targets rule = [sm].
Proof.
  intros Hm. destruct (algebra_well_formed m Hm) as [Hwf _].
  destruct (Hwf q) as (ty & src & b & body & Hroot & Hb & Hr & Hc & _ & _).
  destruct (compile_from props ty src b body Hb Hr Hc)
    as (ts' & sm & E & Hl & _ & _ & Ha).
  unfold StateMachine, duct.Apply.
  destruct (duct.root (ToQueue q m)) as [l]. cbn in Hroot. subst l.
  rewrite E. exists ts', sm. eexists.
  split; [reflexivity|]. split; [exact Hl|]. split; [exact Ha|reflexivity].
Qed.

(* ===================================================================== *)
(** ** Examples *)
(* ===================================================================== *)

Example sha256_empty :
  hex.EncodeToString (sha256.Sum256 (bytes_of ""))
  = "e3b0c44298fc1c149afbf4c8996fb92427ae41e4649b934ca495991b7852b855".
Proof. vm_compute. reflexivity. Qed.

Example sha256_abc :
  hex.EncodeToString (sha256.Sum256 (bytes_of "abc"))
  = "ba7816bf8f01cfea414140de5dae2223b00361a396177a9cb410ff61f20015ad".
Proof. vm_compute. reflexivity. Qed.

Example sha256_two_blocks :
  hex.EncodeToString
    (sha256.Sum256
       (bytes_of "abcdbcdecdefdefgefghfghighijhijkijkljklmklmnlmnomnopnopq"))
  = "248d6a61d20638b8e5c026930c3e6039a33ce45964ff2167f6ecedd419db06c1".
Proof. vm_compute. reflexivity. Qed.

(** The syntax tree of the pipeline of [TestTypeStep]. *)
Example TestTypeStep_root :
  duct.Seq (duct.root TestTypeStep.p6)
  = [duct.NodeFrom
       {| duct.From_Type := "string";
          duct.Source := any_source {| source_cat := [];
                                       source_bus := Some TestTypeStep.event |} |};
     duct.NodeMap {| duct.F := any_lambda
       {| lambda_concurency := 1; lambda_f := {| function_id := "A" |} |} |};
     duct.NodeMap {| duct.F := any_lambda
       {| lambda_concurency := 1; lambda_f := {| function_id := "B" |} |} |};
     duct.NodeSeq
       [duct.NodeMap {| duct.F := any_lambda
          {| lambda_concurency := 1; lambda_f := {| function_id := "C" |} |} |};
        duct.NodeSeq
          [duct.NodeMap {| duct.F := any_lambda
             {| lambda_concurency := 1; lambda_f := {| function_id := "D" |} |} |};
           duct.NodeYield {| duct.Yield_Type := "string";
                             duct.Target := any_IQueue TestTypeStep.queue |}]]].
Proof. reflexivity. Qed.

(** Its compilation: two invoke states, then a map state over an invoke
    state and a nested map state, which ends in the sink; every invoke
    state catches to the dead-letter queue; one rule on ["string"]. *)
Example TestTypeStep_compiled :
  let q := TestTypeStep.queue in
  let catch id := [([NewSqsSendMessage ("Try" +:+ id) q "$";
                     NewFail ("Err" +:+ id)], "$.error")] in
  let invoke id path := NewLambdaInvoke ("Map" +:+ id) path {| function_id := id |}
                          (catch id) in
  let inner := [invoke "D" "$"; NewSqsSendMessage "Sink" q "$.Payload"] in
  let inner_name := seq_name "MapDSink" in
  let outer := [invoke "C" "$";
                NewMap inner_name "$.Payload" (jsii_Number 1) (Some inner)] in
  let outer_name := seq_name ("MapC" +:+ inner_name) in
  let body := [invoke "A" "$.detail"; invoke "B" "$.Payload";
               NewMap outer_name "$.Payload" (jsii_Number 1) (Some outer)] in
  let machine := {| machine_id := "StateMachine"; DefinitionBody := Some body |} in
  exists ts,
    StateMachine (NewTypeStep TestTypeStep.props) TestTypeStep.p6 = Ok ts
    /\ stack ts = [Some body]
    /\ names ts = ["MapAMapB" +:+ outer_name]
    /\ args ts = "$"
    /\ artifacts (Construct ts)
       = [ChildStateMachine machine;
          ChildRule {| rule_id := "Rule";
                       rule_EventBus := TestTypeStep.event;
                       rule_EventPattern := Some {| DetailType := ["string"] |};
                       rule_targets := [machine] |}]
    /\ inner_name = "Seq7cf09d63"
    /\ outer_name = "Seq003a5f1d"
    /\ length (Construct ts) = 17%nat.
Proof.
  cbv zeta. eexists. split; [vm_compute; reflexivity|].
  repeat split; vm_compute; reflexivity.
Qed.

(* ===================================================================== *)
(** ** Errors and panics of the callbacks *)
(* ===================================================================== *)

Lemma append_never_errs (f : State) (ts : typeStep) e ts' :
  append f ts <> Err e ts'.
Proof.
  unfold append. destruct (index (stack ts) _); [|discriminate].
  cbn. destruct (index (names ts) _); discriminate.
Qed.

(** X1. A callback that returns an error returns the builder as it
    received it. The error is one of five: the two of
    [OnLeaveMorphism] (a number of open levels other than one; one open
    level and no event bus) and the three that name an unrecognised
    payload. [OnEnterSeq], [OnLeaveSeq] and the other callbacks never
    return an error. *)
Theorem errors_leave_the_state (c : duct.Call) (ts ts' : typeStep) (e : string) :
  duct.invoke c ts = Err e ts' ->
  ts' = ts
  /\ match c with
     | duct.LeaveMorphism _ _ =>
         (length (stack ts) <> 1%nat /\ e = "bad definition of compute pipeline")
         \/ (length (stack ts) = 1%nat /\ bus ts = None
             /\ e = "undefined event source for compute pipeline")
     | duct.EnterMap _ n =>
         (forall f, duct.F n <> any_lambda f)
         /\ e = "unkown compute type: " +:+ typeName (duct.F n)
     | duct.EnterFrom _ n =>
         (forall f, duct.Source n <> any_source f)
         /\ e = "unkown input type: " +:+ typeName (duct.Source n)
     | duct.EnterYield _ n =>
         (forall f, duct.Target n <> any_IQueue f)
         /\ (forall f, duct.Target n <> any_eventbus f)
         /\ e = "unkown reply type: " +:+ typeName (duct.Target n)
     | _ => False
     end.
Proof.
  destruct c as [d n|d n|d n|d n|d n|d n|d n|d n|d n|d n];
    cbn [duct.invoke typeStep_Visitor duct.OnEnterMorphism duct.OnLeaveMorphism
         duct.OnEnterSeq duct.OnLeaveSeq duct.OnEnterMap duct.OnLeaveMap
         duct.OnEnterFrom duct.OnLeaveFrom duct.OnEnterYield duct.OnLeaveYield];
    try discriminate.
  - unfold OnLeaveMorphism.
    destruct (Nat.eqb_spec (length (stack ts)) 1) as [H1|H1]; cbn [negb].
    + destruct (bus ts) eqn:Hb; [discriminate|].
      intros H. injection H as <- <-. split; [reflexivity|]. right. auto.
    + intros H. injection H as <- <-. split; [reflexivity|]. left. auto.
  - unfold OnLeaveSeq. destruct (index (names ts) _); [|discriminate].
    destruct (duct.Seq n); [discriminate|].
    destruct (index (stack ts) _); [|discriminate].
    destruct (append _ _) eqn:E; try discriminate.
    exfalso. eapply append_never_errs. exact E.
  - unfold OnEnterMap. destruct (duct.F n) eqn:E;
      try (intros H; injection H as <- <-; split; [reflexivity|];
           split; [intros f; discriminate|reflexivity]).
    intros H. exfalso. eapply append_never_errs. exact H.
  - unfold OnEnterFrom. destruct (duct.Source n) eqn:E; try discriminate;
      (intros H; injection H as <- <-; split; [reflexivity|];
       split; [intros f; discriminate|reflexivity]).
  - unfold OnEnterYield. destruct (duct.Target n) eqn:E;
      try (intros H; injection H as <- <-; split; [reflexivity|];
           split; [intros f; discriminate|];
           split; [intros f; discriminate|reflexivity]);
      (intros H; exfalso; eapply append_never_errs; exact H).
Qed.

Lemma errors_leave_the_state_witness :
  let ts := set_stack [None; None] (NewTypeStep TestTypeStep.no_props) in
  ts = ts
  /\ ((length (stack ts) <> 1%nat
       /\ "bad definition of compute pipeline" = "bad definition of compute pipeline")
      \/ (length (stack ts) = 1%nat /\ bus ts = None
          /\ "bad definition of compute pipeline"
             = "undefined event source for compute pipeline")).
Proof.
  intros ts.
  apply (errors_leave_the_state (duct.LeaveMorphism 0 {| duct.Seq := [] |}) ts ts
           "bad definition of compute pipeline").
  reflexivity.
Defined.



(* ===================================================================== *)
(** ** A fan-out is one state of its enclosing level *)
(* ===================================================================== *)

Lemma take_snoc_same {A : Type} (b : nat) (s : list A) (c c' : A) :
  (b <= length s)%nat -> take b (s ++ [c']) = take b (s ++ [c]).
Proof. intros H. rewrite !take_app_le by exact H. reflexivity. Qed.

(** Well-nested calls never touch a level below the one they start in. *)
Lemma run_frame cs : forall (t t' : typeStep) (k0 k : nat),
  parallel t -> nesting cs k0 = Some k -> (k0 < length (stack t))%nat ->
  duct.run cs t = Ok t' ->
  take (length (stack t) - S k0) (stack t') = take (length (stack t) - S k0) (stack t)
  /\ take (length (stack t) - S k0) (names t') = take (length (stack t) - S k0) (names t)
  /\ length (stack t') = (length (stack t) - S k0 + S k)%nat.
Proof.
  induction cs as [|c cs IH]; intros t t' k0 k Hp Hn Hk H.
  - injection H as <-. injection Hn as <-. repeat split. lia.
  - cbn [duct.run] in H.
    destruct (duct.invoke c t) as [u| |] eqn:E; try discriminate.
    assert (Hp' : parallel u)
      by (apply (invoke_parallel c t u Hp); rewrite E; reflexivity).
    pose proof (invoke_step c t Hp) as Hs. rewrite E in Hs.
    assert (Hl : length (stack t) = length (names t)) by (destruct Hp; assumption).
    inversion Hs; subst; cbn [nesting] in Hn.
    + destruct c; try contradiction; apply (IH _ _ _ _ Hp' Hn Hk H).
    + apply (IH _ _ _ _ Hp' Hn Hk H).
    + (* a level is opened *)
      destruct (IH _ t' (S k0) k Hp' Hn) as (F1 & F2 & F3);
        [cbn; rewrite length_app; cbn; lia|exact H|].
      cbn in F1, F2, F3. rewrite length_app in F1, F2, F3. cbn in F1, F2, F3.
      replace (length (stack t) + 1 - S (S k0))%nat
        with (length (stack t) - S k0)%nat in * by lia.
      rewrite take_app_le in F1 by lia.
      rewrite take_app_le in F2 by lia.
      repeat split; assumption.
    + (* a level is closed *)
      destruct k0 as [|k0]; [discriminate|].
      match goal with
      | Est : stack t = _, Enm : names t = _ |- _ =>
          rewrite Est, Enm in *; rewrite !length_app in *; cbn [length] in *
      end.
      destruct (IH _ t' k0 k Hp' Hn) as (F1 & F2 & F3);
        [cbn; rewrite length_app; cbn; lia|exact H|].
      cbn in F1, F2, F3. rewrite length_app in F1, F2, F3. cbn in F1, F2, F3.
      replace (length s + 1 - S k0)%nat with (length s + 2 - S (S k0))%nat in * by lia.
      rewrite take_app_le in F1 by lia.
      rewrite take_app_le in F2 by lia.
      rewrite !(take_app_le s) by lia. rewrite !(take_app_le nn) by lia.
      repeat split; assumption.
    + (* an invoke state *)
      match goal with
      | Est : stack t = _, Enm : names t = _ |- _ =>
          rewrite Est, Enm in *; rewrite !length_app in *; cbn [length] in *
      end.
      destruct (IH _ t' k0 k Hp' Hn) as (F1 & F2 & F3);
        [cbn; rewrite length_app; cbn; lia|exact H|].
      cbn in F1, F2, F3. rewrite length_app in F1, F2, F3. cbn in F1, F2, F3.
      rewrite take_app_le in F1 by lia.
      rewrite take_app_le in F2 by lia.
      rewrite !(take_app_le s) by lia. rewrite !(take_app_le nn) by lia.
      repeat split; assumption.
    + apply (IH _ _ _ _ Hp' Hn Hk H).
    + apply (IH _ _ _ _ Hp' Hn Hk H).
    + (* a sink *)
      match goal with
      | Est : stack t = _, Enm : names t = _ |- _ =>
          rewrite Est, Enm in *; rewrite !length_app in *; cbn [length] in *
      end.
      destruct (IH _ t' k0 k Hp' Hn) as (F1 & F2 & F3);
        [cbn; rewrite length_app; cbn; lia|exact H|].
      cbn in F1, F2, F3. rewrite length_app in F1, F2, F3. cbn in F1, F2, F3.
      rewrite take_app_le in F1 by lia.
      rewrite take_app_le in F2 by lia.
      rewrite !(take_app_le s) by lia. rewrite !(take_app_le nn) by lia.
      repeat split; assumption.
Qed.

Lemma snoc_of_take {A : Type} (p l : list A) :
  take (length p) l = p -> length l = S (length p) -> exists y, l = p ++ [y].
Proof.
  intros Ht Hl. rewrite <- (take_drop (length p) l), Ht.
  destruct (drop (length p) l) as [|y [|z r]] eqn:E.
  - apply (f_equal length) in E. rewrite length_drop in E. cbn in E. lia.
  - exists y. reflexivity.
  - apply (f_equal length) in E. rewrite length_drop in E. cbn in E. lia.
Qed.

Lemma reachable_parallel_from cs (ts ts' : typeStep) :
  parallel ts -> state_of (duct.run cs ts) = Some ts' -> parallel ts'.
Proof. apply (run_invariant parallel invoke_parallel). Qed.

(** X3. A fan-out is compiled in place: when the calls between an
    [OnEnterSeq] and its [OnLeaveSeq] are well nested and the whole
    returns, every chain level that was open before is as it was, but
    the innermost, which has gained exactly one state: the map state
    whose item processor is the chain built in between. *)
Theorem fanout_in_place (d d' : Z) (node node' : duct.AstSeq)
    (body : list duct.Call) (ts ts' : typeStep) :
  parallel ts -> nesting body 0 = Some 0%nat ->
  duct.run (duct.EnterSeq d node :: body ++ [duct.LeaveSeq d' node']) ts = Ok ts' ->
  exists s c nn x t1 sub name first,
    stack ts = s ++ [c]
    /\ names ts = nn ++ [x]
    /\ duct.run (duct.EnterSeq d node :: body) ts = Ok t1
    /\ stack t1 = s ++ [c; sub]
    /\ names t1 = nn ++ [x; name]
    /\ head (duct.Seq node') = Some first
    /\ stack ts'
       = s ++ [Some (grow c (NewMap (seq_name name) "$.Payload"
                               (jsii_Number (concurency_of first)) sub))]
    /\ names ts' = nn ++ [x +:+ seq_name name]
    /\ args ts' = "$".
Proof.
  intros Hp Hbal H.
  destruct (parallel_snoc ts Hp) as (s & c & nn & x & Hs & Hnn & Hlen).
  cbn [duct.run duct.invoke typeStep_Visitor duct.OnEnterSeq] in H.
  unfold OnEnterSeq in H. rewrite run_app in H.
  set (t0 := set_args "$" _) in H.
  assert (Hp0 : parallel t0).
  { destruct Hp as [Hl Hpos]. split; cbn; rewrite !length_app; cbn; lia. }
  destruct (duct.run body t0) as [t1| |] eqn:E1; try discriminate.
  destruct (run_frame body t0 t1 0 0 Hp0 Hbal) as (F1 & F2 & F3);
    [cbn; rewrite length_app; cbn; lia|exact E1|].
  assert (Hp1 : parallel t1)
    by (apply (reachable_parallel_from body t0 t1 Hp0); rewrite E1; reflexivity).
  cbn in F1, F2, F3. rewrite length_app in F1, F2, F3. cbn in F1, F2, F3.
  replace (length (stack ts) + 1 - 1)%nat with (length (stack ts)) in * by lia.
  rewrite take_app_length in F1.
  assert (F2' : take (length (names ts)) (names t1) = names ts).
  { destruct Hp as [Hl _]. rewrite <- Hl.
    rewrite F2. rewrite Hl. apply take_app_length. }
  destruct (snoc_of_take (stack ts) (stack t1) F1 ltac:(lia)) as [sub Hst1].
  destruct (snoc_of_take (names ts) (names t1) F2') as [name Hnm1].
  { destruct Hp1 as [Hl1 _]. destruct Hp as [Hl _]. lia. }
  cbn [duct.run duct.invoke typeStep_Visitor duct.OnLeaveSeq] in H.
  destruct (duct.Seq node') as [|first rest] eqn:Hnode.
  { destruct node' as [l]. cbn in Hnode. subst l.
    pose proof (OnLeaveSeq_empty_panics d' t1) as Epanic.
    destruct (OnLeaveSeq d' _ t1); discriminate. }
  rewrite Hs in Hst1. rewrite Hnn in Hnm1. rewrite <- app_assoc in Hst1, Hnm1.
  cbn [app] in Hst1, Hnm1.
  rewrite (OnLeaveSeq_snoc d' node' t1 s c sub nn x name first rest
             Hst1 Hnm1 Hlen Hnode) in H.
  injection H as <-.
  exists s, c, nn, x, t1, sub, name, first. repeat split; assumption.
Qed.

Lemma fanout_in_place_witness :
  let node := {| duct.Seq := fanout TestTypeStep.p4 |} in
  let body := duct.calls 2 (duct.NodeMap {| duct.F := any_lambda
                {| lambda_concurency := 1; lambda_f := {| function_id := "C" |} |} |}) in
  let start := NewTypeStep TestTypeStep.props in
  let ts' := default start
               (state_of (duct.run (duct.EnterSeq 1 node :: body
                                      ++ [duct.LeaveSeq 1 node]) start)) in
  exists sub name,
    stack ts' = [Some [NewMap (seq_name name) "$.Payload" (jsii_Number 1) sub]]
    /\ names ts' = [seq_name name].
Proof.
  intros node body start ts'.
  destruct (fanout_in_place 1 1 node node body start ts')
    as (s & c & nn & x & t1 & sub & name & first & Hs & Hn & _ & _ & _ & Hf & Hs' & Hn' & _).
  - apply NewTypeStep_parallel.
  - reflexivity.
  - vm_compute. reflexivity.
  - destruct s; [|destruct s; discriminate]. destruct nn; [|destruct nn; discriminate].
    injection Hs as <-. injection Hn as <-. injection Hf as <-.
    exists sub, name. split; assumption.
Defined.

(* ===================================================================== *)
(** ** The visitor computes a recursive descent *)
(* ===================================================================== *)

Lemma extend_nil (c : option Chain) : extend c [] = c.
Proof. reflexivity. Qed.

Lemma extend_grow (c : option Chain) (f : State) : Some (grow c f) = extend c [f].
Proof. destruct c; reflexivity. Qed.

Lemma extend_extend (c : option Chain) (l1 l2 : list State) :
  extend (extend c l1) l2 = extend c (l1 ++ l2).
Proof.
  destruct l1 as [|a l1]; [reflexivity|].
  destruct l2 as [|b l2]; [rewrite app_nil_r; reflexivity|].
  change (Some ((default [] c ++ a :: l1) ++ b :: l2)
          = Some (default [] c ++ (a :: l1) ++ b :: l2)).
  rewrite <- app_assoc. reflexivity.
Qed.

Lemma ids_of_app (l1 l2 : list State) : ids_of (l1 ++ l2) = ids_of l1 +:+ ids_of l2.
Proof.
  unfold ids_of, concat_ids. induction l1 as [|a l1 IH]; [reflexivity|].
  cbn [app foldr]. rewrite IH. symmetry. apply append_assoc.
Qed.

Lemma ids_of_one (f : State) : ids_of [f] = Id f.
Proof. unfold ids_of, concat_ids. cbn [foldr]. apply append_nil_r. Qed.

Lemma concat_ids_extend (l : list State) : concat_ids (extend None l) = ids_of l.
Proof. destruct l; reflexivity. Qed.

Lemma states_of_Seq (q : option IQueue) (l : list duct.Ast) (path : string) :
  states_of q (duct.NodeSeq l) path
  = ([NewMap (seq_name (ids_of (fst (states_of_list q l "$")))) "$.Payload"
        (jsii_Number (match l with
                      | first :: _ => concurency_of first
                      | [] => 1
                      end))
        (extend None (fst (states_of_list q l "$")))],
     "$").
Proof.
  cbn [states_of].
  assert (E : forall l p,
             (fix go (l : list duct.Ast) (path : string) : list State :=
                match l with
                | [] => []
                | c :: r => fst (states_of q c path) ++ go r (snd (states_of q c path))
                end) l p
             = fst (states_of_list q l p)).
  { clear. induction l as [|c r IH]; intros p; [reflexivity|].
    cbn [states_of_list]. rewrite IH.
    destruct (states_of q c p) as [s1 p1]. cbn [fst snd].
    destruct (states_of_list q r p1). reflexivity. }
  rewrite E. reflexivity.
Qed.

Lemma constructs_of_invoke (ts : typeStep) (f : lambda) :
  map ChildState (constructs_of (invoke_state ts f))
  = invoke_children (DeadLetterQueue ts) (function_id (lambda_f f)).
Proof. unfold invoke_state, invoke_children. destruct (DeadLetterQueue ts); reflexivity. Qed.

Lemma sink_of_state (ts : typeStep) (node : duct.AstYield) :
  recognised (duct.NodeYield node) = true ->
  exists f,
    sink_state ts node = Some f /\ sink_of (args ts) node = [f]
    /\ constructs_of f = ["Sink"] /\ Id f = "Sink".
Proof.
  unfold sink_state, sink_of. cbn [recognised].
  destruct (duct.Target node); try discriminate; intros _;
    eexists; repeat split.
Qed.

Lemma descends_nil : descends [] (fun _ path => ([], path)) true.
Proof.
  intros ts s c nn x Hs Hn Hl. exists ts. cbn [fst snd duct.run flat_map map].
  rewrite app_nil_r. unfold ids_of, concat_ids. cbn [foldr]. rewrite append_nil_r.
  repeat split; assumption.
Qed.

Lemma descends_app cs1 cs2 r1 r2 i1 i2 :
  descends cs1 r1 i1 -> descends cs2 r2 i2 ->
  descends (cs1 ++ cs2)
    (fun q path =>
       let (s1, p1) := r1 q path in
       let (s2, p2) := r2 q p1 in
       (s1 ++ s2, p2))
    (i1 && i2).
Proof.
  intros H1 H2 ts s c nn x Hs Hn Hl.
  destruct (H1 ts s c nn x Hs Hn Hl) as (t1 & E1 & Hs1 & Hn1 & Ha1 & Hq1 & Hc1 & Hb1).
  destruct (H2 t1 s _ nn _ Hs1 Hn1 Hl) as (t2 & E2 & Hs2 & Hn2 & Ha2 & Hq2 & Hc2 & Hb2).
  exists t2. rewrite run_app, E1. split; [exact E2|].
  rewrite Hq1, Ha1 in *.
  destruct (r1 (DeadLetterQueue ts) (args ts)) as [s1 p1]. cbn [fst snd] in *.
  destruct (r2 (DeadLetterQueue ts) p1) as [s2 p2]. cbn [fst snd] in *.
  rewrite extend_extend in Hs2.
  rewrite append_assoc, <- ids_of_app in Hn2.
  rewrite Hc1, <- app_assoc, <- map_app, <- flat_map_app in Hc2.
  repeat split; try assumption; try congruence.
  - apply andb_true_iff in H as [Hi1 Hi2].
    destruct (Hb1 Hi1), (Hb2 Hi2). congruence.
  - apply andb_true_iff in H as [Hi1 Hi2].
    destruct (Hb1 Hi1), (Hb2 Hi2). congruence.
Qed.

Lemma descends_ext cs r r' i :
  (forall q p, r q p = r' q p) -> descends cs r i -> descends cs r' i.
Proof.
  intros He H ts s c nn x Hs Hn Hl.
  destruct (H ts s c nn x Hs Hn Hl) as (t & ?). exists t. rewrite <- He. assumption.
Qed.

Lemma descends_list (l : list duct.Ast) (depth : Z) :
  Forall (fun n => descends (duct.calls depth n) (fun q p => states_of q n p)
                     (Nat.eqb (count_from n) 0)) l ->
  descends (flat_map (duct.calls depth) l) (fun q p => states_of_list q l p)
    (Nat.eqb (list_sum (map count_from l)) 0).
Proof.
  induction 1 as [|n l Hn _ IH]; [apply descends_nil|].
  cbn [flat_map]. rewrite map_cons, list_sum_cons.
  replace (Nat.eqb (count_from n + list_sum (map count_from l)) 0)
    with (Nat.eqb (count_from n) 0 && Nat.eqb (list_sum (map count_from l)) 0)
    by (destruct (count_from n), (list_sum (map count_from l)); reflexivity).
  eapply descends_ext; [|apply (descends_app _ _ _ _ _ _ Hn IH)].
  intros q p. reflexivity.
Qed.

Lemma descends_node (n : duct.Ast) : forall depth,
  recognised n = true ->
  descends (duct.calls depth n) (fun q p => states_of q n p)
    (Nat.eqb (count_from n) 0).
Proof.
  induction n as [x|x|l IHl|x] using Ast_induction; intros depth Hr.
  - (* From *)
    intros ts s c nn y Hs Hn Hl. cbn in Hr.
    cbn [duct.calls duct.run duct.invoke typeStep_Visitor duct.OnEnterFrom
         duct.OnLeaveFrom]. unfold OnEnterFrom, OnLeaveFrom.
    destruct (duct.Source x); try discriminate.
    eexists. split; [reflexivity|].
    cbn [states_of fst snd flat_map map stack names args DeadLetterQueue Construct
         set_args set_source count_from Nat.eqb].
    rewrite app_nil_r. unfold ids_of, concat_ids. cbn [foldr]. rewrite append_nil_r.
    repeat split; try assumption; discriminate.
  - (* Map *)
    intros ts s c nn y Hs Hn Hl. cbn in Hr.
    destruct (duct.F x) as [| f | | | |] eqn:E; try discriminate.
    cbn [duct.calls duct.run duct.invoke typeStep_Visitor duct.OnEnterMap
         duct.OnLeaveMap].
    rewrite (OnEnterMap_lambda depth x ts f E).
    erewrite append_snoc; [|exact Hs|exact Hn|exact Hl].
    unfold OnLeaveMap. eexists. split; [reflexivity|].
    cbn [states_of]. rewrite E.
    cbn [fst snd stack names args DeadLetterQueue Construct bus eventPattern
         set_args set_names set_stack set_Construct flat_map].
    rewrite app_nil_r, extend_grow, ids_of_one.
    fold (invoke_state ts f). rewrite constructs_of_invoke.
    repeat split.
  - (* Seq *)
    assert (Hall : forallb recognised l = true) by (destruct l; [discriminate|exact Hr]).
    destruct l as [|first rest] eqn:El; [discriminate|]. rewrite <- El in *.
    assert (Hbody : descends (flat_map (duct.calls (depth + 1)) l)
                      (fun q p => states_of_list q l p)
                      (Nat.eqb (list_sum (map count_from l)) 0)).
    { apply descends_list. clear El Hr. revert Hall.
      induction IHl as [|n l Hn _ IH]; intros Hall; constructor.
      - apply Hn. cbn in Hall. apply andb_true_iff in Hall. tauto.
      - apply IH. cbn in Hall. apply andb_true_iff in Hall. tauto. }
    intros ts s c nn y Hs Hn Hl.
    cbn [duct.calls duct.run duct.invoke typeStep_Visitor duct.OnEnterSeq].
    unfold OnEnterSeq. rewrite run_app.
    set (t0 := set_args "$" _).
    destruct (Hbody t0 (s ++ [c]) None (nn ++ [y]) "")
      as (t1 & E1 & Hs1 & Hn1 & Ha1 & Hq1 & Hc1 & Hb1);
      [cbn; rewrite Hs; reflexivity|cbn; rewrite Hn; reflexivity
      |rewrite !length_app; cbn; lia|].
    rewrite E1. cbn [duct.run duct.invoke typeStep_Visitor duct.OnLeaveSeq].
    cbn [DeadLetterQueue args t0 set_args set_names set_stack] in *.
    rewrite <- app_assoc in Hs1, Hn1. cbn [app] in Hs1, Hn1.
    rewrite (OnLeaveSeq_snoc depth {| duct.Seq := l |} t1 s c _ nn y _ first rest
               Hs1 Hn1 Hl ltac:(rewrite El; reflexivity)).
    eexists. split; [reflexivity|].
    rewrite states_of_Seq.
    cbn [fst snd stack names args DeadLetterQueue Construct bus eventPattern
         set_args set_names set_stack set_Construct create flat_map
         constructs_of count_from].
    rewrite extend_grow, ids_of_one, Hc1, app_nil_r.
    change ("" +:+ ids_of (fst (states_of_list (DeadLetterQueue ts) l "$")))
      with (ids_of (fst (states_of_list (DeadLetterQueue ts) l "$"))).
    cbn [Id]. rewrite <- app_assoc.
    replace (match l with
             | [] => 1
             | first0 :: _ => concurency_of first0
             end) with (concurency_of first) by (rewrite El; reflexivity).
    repeat split; try assumption.
    + unfold t0. cbn [Construct set_args set_names set_stack].
      f_equal. rewrite map_app. f_equal. f_equal.
      destruct (fst (states_of_list (DeadLetterQueue ts) l "$")); reflexivity.
    + apply Hb1. assumption.
    + apply Hb1. assumption.
  - (* Yield *)
    intros ts s c nn y Hs Hn Hl.
    destruct (sink_of_state ts x Hr) as (f & Ef & Eo & Ec & Ei).
    cbn [duct.calls duct.run duct.invoke typeStep_Visitor duct.OnEnterYield
         duct.OnLeaveYield].
    rewrite (OnEnterYield_sink depth x ts f Ef).
    erewrite append_snoc; [|exact Hs|exact Hn|exact Hl].
    unfold OnLeaveYield. eexists. split; [reflexivity|].
    cbn [states_of]. rewrite Eo.
    cbn [fst snd stack names args DeadLetterQueue Construct bus eventPattern
         set_args set_names set_stack set_Construct flat_map].
    rewrite app_nil_r, extend_grow, ids_of_one, Ec.
    repeat split.
Qed.

(** X4. The stack-based visitor computes a recursive descent. Traversing
    recognised nodes from a state with parallel names returns without
    failure; the levels below the innermost are as before, and the
    innermost level, its name, the input path and the scope have gained
    what [states_of_list] computes from the nodes alone: the states in
    order, their identifiers, the path left by the last node, and one
    child per construct. *)
Theorem compile_by_descent (l : list duct.Ast) (depth : Z) (ts : typeStep) :
  forallb recognised l = true -> parallel ts ->
  exists ts' s c nn x,
    stack ts = s ++ [c] /\ names ts = nn ++ [x]
    /\ duct.run (flat_map (duct.calls depth) l) ts = Ok ts'
    /\ stack ts'
       = s ++ [extend c (fst (states_of_list (DeadLetterQueue ts) l (args ts)))]
    /\ names ts'
       = nn ++ [x +:+ ids_of (fst (states_of_list (DeadLetterQueue ts) l (args ts)))]
    /\ args ts' = snd (states_of_list (DeadLetterQueue ts) l (args ts))
    /\ Construct ts'
       = Construct ts
           ++ map ChildState
                (flat_map constructs_of
                   (fst (states_of_list (DeadLetterQueue ts) l (args ts)))).
Proof.
  intros Hr Hp.
  destruct (parallel_snoc ts Hp) as (s & c & nn & x & Hs & Hn & Hl).
  assert (Hd : descends (flat_map (duct.calls depth) l)
                 (fun q p => states_of_list q l p)
                 (Nat.eqb (list_sum (map count_from l)) 0)).
  { apply descends_list. apply List.Forall_forall. intros n Hin.
    apply descends_node. rewrite forallb_forall in Hr. apply Hr. exact Hin. }
  destruct (Hd ts s c nn x Hs Hn Hl) as (ts' & E & Hs' & Hn' & Ha' & _ & Hc' & _).
  exists ts', s, c, nn, x. repeat split; assumption.
Qed.

Lemma compile_by_descent_witness :
  let body := tl (duct.Seq (duct.root TestTypeStep.p6)) in
  let start := NewTypeStep TestTypeStep.props in
  exists ts' s c,
    stack start = s ++ [c]
    /\ duct.run (flat_map (duct.calls 1) body) start = Ok ts'
    /\ stack ts'
       = s ++ [extend c (fst (states_of_list (DeadLetterQueue start) body
                                (args start)))].
Proof.
  intros body start.
  destruct (compile_by_descent body 1 start)
    as (ts' & s & c & nn & x & Hs & _ & E & Hs' & _).
  - reflexivity.
  - apply NewTypeStep_parallel.
  - exists ts', s, c. split; [exact Hs|]. split; [exact E|exact Hs'].
Defined.

(** The state in which a pipeline that begins with a recognised [From]
    reaches [OnLeaveMorphism]. *)
Lemma descent_after_from (props : TypeStepProps) ty src body :
  forallb recognised body = true ->
  list_sum (map count_from body) = 0%nat ->
  let states :=
    fst (states_of_list (props_DeadLetterQueue props) body "$.detail") in
  exists t,
    duct.run
      (duct.EnterMorphism 0
         {| duct.Seq :=
              duct.NodeFrom {| duct.From_Type := ty; duct.Source := any_source src |}
                :: body |}
         :: flat_map (duct.calls 1)
              (duct.NodeFrom {| duct.From_Type := ty; duct.Source := any_source src |}
                 :: body))
      (NewTypeStep props) = Ok t
    /\ stack t = [extend None states]
    /\ names t = [ids_of states]
    /\ bus t = source_bus src
    /\ eventPattern t = Some (pattern_of ty src)
    /\ Construct t = map ChildState (flat_map constructs_of states).
Proof.
  intros Hr Hc states.
  cbn [flat_map duct.calls app duct.run duct.invoke typeStep_Visitor
       duct.OnEnterMorphism duct.OnEnterFrom duct.OnLeaveFrom].
  unfold OnEnterMorphism, OnEnterFrom, OnLeaveFrom. cbn [duct.Source duct.From_Type].
  rewrite pattern_of_eq.
  set (t1 := set_args "$.detail" _).
  assert (Hd : descends (flat_map (duct.calls 1) body)
                 (fun q p => states_of_list q body p)
                 (Nat.eqb (list_sum (map count_from body)) 0)).
  { apply descends_list. apply List.Forall_forall. intros n Hin.
    apply descends_node. rewrite forallb_forall in Hr. apply Hr. exact Hin. }
  destruct (Hd t1 [] None [] "" eq_refl eq_refl eq_refl)
    as (t & E & Hs & Hn & _ & _ & Hcs & Hb).
  destruct Hb as [Hb He]; [rewrite Hc; reflexivity|].
  exists t. split; [exact E|]. repeat split; assumption.
Qed.



(** X6. A [From] whose event bus is nil leaves the builder without event
    source: whatever recognised nodes follow, the compilation ends on
    the undefined event source error of [OnLeaveMorphism]. Nothing is
    undone: the states created on the way remain children of the scope,
    which holds no state machine and no rule. *)
Theorem nil_bus_is_undefined_source (props : TypeStepProps) ty src body :
  source_bus src = None ->
  forallb recognised body = true ->
  list_sum (map count_from body) = 0%nat ->
  exists ts',
    duct.run
      (duct.trace
         {| duct.Seq :=
              duct.NodeFrom {| duct.From_Type := ty; duct.Source := any_source src |}
                :: body |})
      (NewTypeStep props)
    = Err "undefined event source for compute pipeline" ts'
    /\ Construct ts'
       = map ChildState
           (flat_map constructs_of
              (fst (states_of_list (props_DeadLetterQueue props) body "$.detail")))
    /\ artifacts (Construct ts') = [].
Proof.
  intros Hb Hr Hc.
  destruct (descent_after_from props ty src body Hr Hc)
    as (t & E & Hs & Hn & Hbus & Hpat & Hcs).
  unfold duct.trace. cbn [duct.Seq].
  rewrite app_comm_cons, run_app, E.
  cbn [duct.run duct.invoke typeStep_Visitor duct.OnLeaveMorphism].
  unfold OnLeaveMorphism. rewrite Hs, Hbus, Hb. cbn [length Nat.eqb negb].
  exists t. split; [reflexivity|]. split; [exact Hcs|].
  rewrite Hcs. apply (artifacts_states []).
Qed.

Lemma nil_bus_is_undefined_source_witness :
  exists ts',
    duct.run
      (duct.trace
         {| duct.Seq :=
              [duct.NodeFrom
                 {| duct.From_Type := "string";
                    duct.Source :=
                      any_source {| source_cat := []; source_bus := None |} |};
               duct.NodeMap {| duct.F := any_lambda
                 {| lambda_concurency := 1;
                    lambda_f := {| function_id := "A" |} |} |}] |})
      (NewTypeStep TestTypeStep.props)
    = Err "undefined event source for compute pipeline" ts'
    /\ Construct ts' = [ChildState "MapA"; ChildState "TryA"; ChildState "ErrA"].
Proof.
  destruct (nil_bus_is_undefined_source TestTypeStep.props "string"
              {| source_cat := []; source_bus := None |}
              [duct.NodeMap {| duct.F := any_lambda
                 {| lambda_concurency := 1;
                    lambda_f := {| function_id := "A" |} |} |}]
              eq_refl eq_refl eq_refl)
    as (ts' & E & Hc & _).
  exists ts'. split; [exact E|exact Hc].
Defined.

(* ===================================================================== *)
(** ** [StateMachine] on the pipelines of the algebra *)
(* ===================================================================== *)

Lemma sourced_levels (in_ : option IEventBus) {A B : gotype}
    (m : duct.Morphism A B) :
  sourced in_ m ->
  exists pre src l0,
    duct.levels m
    = pre ++ [duct.NodeFrom {| duct.From_Type := duct.nameOf A;
                               duct.Source := any_source src |} :: l0]
    /\ source_bus src = in_
    /\ Forall (Forall plain) pre
    /\ Forall plain l0.
Proof.
  induction 1 as [A cat|A B C f m _ IH|A B C f m _ IH|A B C n f m _ IH|A B m _ IH].
  - exists [], {| source_cat := cat; source_bus := in_ |}, [].
    repeat split; constructor.
  - destruct IH as (pre & src & l0 & E & Hb & Hpre & Hl0).
    unfold Join. cbn [duct.levels]. rewrite E.
    destruct pre as [|o pre].
    + exists [], src, (l0 ++ [duct.NodeMap {| duct.F := any_lambda
              {| lambda_concurency := 1; lambda_f := F_F f |} |}]).
      repeat split; try assumption.
      apply Forall_app. split; [assumption|]. repeat constructor. eexists. reflexivity.
    + apply Forall_cons in Hpre as [Ho Hpre].
      exists ((o ++ [duct.NodeMap {| duct.F := any_lambda
              {| lambda_concurency := 1; lambda_f := F_F f |} |}]) :: pre), src, l0.
      repeat split; try assumption.
      constructor; [|assumption].
      apply Forall_app. split; [assumption|]. repeat constructor. eexists. reflexivity.
  - destruct IH as (pre & src & l0 & E & Hb & Hpre & Hl0).
    unfold Lift. cbn [duct.levels]. rewrite E.
    eexists (_ :: pre), src, l0. repeat split; try assumption.
    constructor; [|assumption]. repeat constructor. eexists. reflexivity.
  - destruct IH as (pre & src & l0 & E & Hb & Hpre & Hl0).
    unfold LiftP. cbn [duct.levels]. rewrite E.
    eexists (_ :: pre), src, l0. repeat split; try assumption.
    constructor; [|assumption]. repeat constructor. eexists. reflexivity.
  - destruct IH as (pre & src & l0 & E & Hb & Hpre & Hl0).
    unfold Wrap. cbn [duct.levels]. rewrite E.
    exists ([] :: pre), src, l0. repeat split; try assumption.
    constructor; [constructor|assumption].
Qed.

(** The root of such a pipeline once ended by a recognised target. *)
Lemma sourced_root (in_ : option IEventBus) {A B : gotype}
    (m : duct.Morphism A B) (target : any) :
  sourced in_ m ->
  recognised (duct.NodeYield {| duct.Yield_Type := duct.nameOf B;
                                duct.Target := target |}) = true ->
  exists src body,
    duct.root (duct.Yield target m)
    = {| duct.Seq :=
           duct.NodeFrom {| duct.From_Type := duct.nameOf A;
                            duct.Source := any_source src |} :: body |}
    /\ source_bus src = in_
    /\ good_tail body.
Proof.
  intros Hm Hr. destruct (sourced_levels in_ m Hm) as (pre & src & l0 & E & Hb & Hpre & Hl0).
  unfold duct.root. cbn [duct.levels]. rewrite E.
  set (y := duct.NodeYield _) in *.
  assert (Hy : forall o, Forall plain o -> good_tail (o ++ [y]))
    by (intros o Ho; apply good_tail_snoc; try assumption; reflexivity).
  destruct pre as [|o pre]; cbn [app duct.push].
  - exists src, (l0 ++ [y]). repeat split; try assumption; apply (Hy l0 Hl0).
  - apply Forall_cons in Hpre as [Ho Hpre].
    destruct (close_good pre (o ++ [y])
                {| duct.From_Type := duct.nameOf A; duct.Source := any_source src |}
                l0 (Hy o Ho) Hpre Hl0)
      as (body & Eb & Hg).
    rewrite Eb. exists src, body. repeat split; try assumption; apply Hg.
Qed.

(** X7. [StateMachine] on a pipeline of the algebra. Built from a [From]
    on an event bus by [Join], [Lift], [LiftP] and [Wrap] and sent to a
    queue, the pipeline compiles without panic: the scope ends with one
    state machine and one rule that targets it. Built from a [From] on
    a nil bus, [StateMachine] panics with the undefined event source
    error. *)
Theorem StateMachine_on_algebra (props : TypeStepProps) (in_ : option IEventBus)
    {A B : gotype} (m : duct.Morphism A B) (q : IQueue) :
  sourced in_ m ->
  match in_ with
  | Some b =>
      exists ts' sm rule,
        StateMachine (NewTypeStep props) (ToQueue q m) = Ok ts'
        /\ artifacts (Construct ts') = [ChildStateMachine sm; ChildRule rule]
        /\ rule_targets rule = [sm]
        /\ rule_EventBus rule = b
        /\ DefinitionBody sm = mjoin (head (stack ts'))
  | None =>
      StateMachine (NewTypeStep props) (ToQueue q m)
      = Panic "undefined event source for compute pipeline"
  end.
Proof.
  intros Hm.
  destruct (sourced_root in_ m (any_IQueue q) Hm eq_refl)
    as (src & body & Hroot & Hb & _ & Hr & Hc & _).
  unfold StateMachine, duct.Apply, ToQueue. rewrite Hroot.
  destruct in_ as [b|].
  - destruct (compile_from props (duct.nameOf A) src b body Hb Hr Hc)
      as (ts' & sm & E & _ & Hd & _ & Ha).
    rewrite E. exists ts', sm. eexists.
    split; [reflexivity|]. split; [exact Ha|]. repeat split. exact Hd.
  - destruct (descent_after_from props (duct.nameOf A) src body Hr Hc)
      as (t & E & Hs & _ & Hbus & _).
    unfold duct.trace. cbn [duct.Seq].
    rewrite app_comm_cons, run_app, E.
    cbn [duct.run duct.invoke typeStep_Visitor duct.OnLeaveMorphism].
    unfold OnLeaveMorphism. rewrite Hs, Hbus, Hb. reflexivity.
Qed.

Lemma StateMachine_on_algebra_witness :
  exists ts' sm rule,
    StateMachine (NewTypeStep TestTypeStep.props)
      (ToQueue TestTypeStep.queue TestTypeStep.p5) = Ok ts'
    /\ artifacts (Construct ts') = [ChildStateMachine sm; ChildRule rule]
    /\ rule_targets rule = [sm]
    /\ rule_EventBus rule = TestTypeStep.event
    /\ DefinitionBody sm = mjoin (head (stack ts')).
Proof.
  apply (StateMachine_on_algebra TestTypeStep.props (Some TestTypeStep.event)
           TestTypeStep.p5 TestTypeStep.queue).
  repeat constructor.
Defined.

(** X8. [StateMachine] never returns an error: it returns the builder
    or panics. When the traversal reaches a node whose payload is not
    recognised after calls that all returned, it panics with the error
    of that node's callback. *)
Theorem StateMachine_panics_on_error {A B : gotype} (ts : typeStep)
    (m : duct.Morphism A B) :
  (forall e t, StateMachine ts m <> Err e t)
  /\ (forall pre c post msg t1,
      duct.trace (duct.root m) = pre ++ c :: post ->
      duct.run pre ts = Ok t1 ->
      offending c = Some msg ->
      StateMachine ts m = Panic msg).
Proof.
  unfold StateMachine, duct.Apply. split.
  - intros e t. destruct (duct.run _ ts); discriminate.
  - intros pre c post msg t1 Ht Hpre Hoff.
    rewrite Ht, run_app, Hpre. cbn [duct.run].
    rewrite (offending_fails c msg t1 Hoff). reflexivity.
Qed.

Lemma StateMachine_panics_on_error_witness :
  StateMachine (NewTypeStep TestTypeStep.props)
    (@duct.Join _ _ TestTypeStep.tstring (any_other "func(string) string")
       TestTypeStep.p1)
  = Panic "unkown compute type: func(string) string".
Proof.
  apply (proj2 (StateMachine_panics_on_error (NewTypeStep TestTypeStep.props)
                  (@duct.Join _ _ TestTypeStep.tstring
                     (any_other "func(string) string") TestTypeStep.p1))
           (firstn 3 (duct.trace (duct.root
              (@duct.Join _ _ TestTypeStep.tstring
                 (any_other "func(string) string") TestTypeStep.p1))))
           (duct.EnterMap 1 {| duct.F := any_other "func(string) string" |})
           (skipn 4 (duct.trace (duct.root
              (@duct.Join _ _ TestTypeStep.tstring
                 (any_other "func(string) string") TestTypeStep.p1))))
           _
           (set_args "$.detail"
              (set_source (Some TestTypeStep.event)
                 (Some {| DetailType := ["string"] |})
                 (NewTypeStep TestTypeStep.props)))).
  - reflexivity.
  - reflexivity.
  - reflexivity.
Defined.

(* ===================================================================== *)
(** ** The sink on an event bus *)
(* ===================================================================== *)

(** X9. The node that [ToEventBus] adds yields a put-events state named
    ["Sink"], which reads its detail at the current input path and
    carries the given source and bus. Its detail type is the first of
    the given categories, the others being ignored, and the name of the
    output type when none is given. The state becomes the last of the
    innermost chain level and a child of the scope. *)
Theorem event_bus_sink {A B : gotype} (source : string) (bus : option IEventBus)
    (m : duct.Morphism A B) (cat : list string) (depth : Z) (ts : typeStep) :
  parallel ts ->
  exists node ts',
    last (fanout (ToEventBus source bus m cat)) = Some (duct.NodeYield node)
    /\ OnEnterYield depth node ts = Ok ts'
    /\ emitted ts'
       = Some (NewEventBridgePutEvents "Sink" (args ts)
                 (match cat with
                  | [] => duct.nameOf B
                  | c :: _ => c
                  end)
                 source bus)
    /\ Construct ts' = Construct ts ++ [ChildState "Sink"]
    /\ args ts' = args ts.
Proof.
  intros Hp.
  exists {| duct.Yield_Type := duct.nameOf B;
            duct.Target := any_eventbus {| eventbus_bus := bus;
                                           eventbus_source := source;
                                           eventbus_cat := cat |} |}.
  set (node := {| duct.Yield_Type := _; duct.Target := _ |}).
  assert (Hs : sink_state ts node
               = Some (NewEventBridgePutEvents "Sink" (args ts)
                         (match cat with
                          | [] => duct.nameOf B
                          | c :: _ => c
                          end) source bus)) by reflexivity.
  rewrite (OnEnterYield_sink depth node ts _ Hs).
  match goal with
  | |- context [append ?s ?t] =>
      destruct (append_parallel s t Hp)
        as (ts' & E & _ & _ & He & Hc & _ & _ & _ & Ha)
  end.
  exists ts'. split; [|repeat split; assumption].
  unfold fanout, ToEventBus. cbn [duct.levels]. unfold duct.push.
  destruct (duct.levels m); cbn [hd]; [reflexivity|apply last_snoc].
Qed.

Lemma event_bus_sink_witness :
  exists node ts',
    last (fanout (ToEventBus "typestep" (Some TestTypeStep.event) TestTypeStep.p2
                    ["first"; "second"]))
    = Some (duct.NodeYield node)
    /\ OnEnterYield 1 node (NewTypeStep TestTypeStep.props) = Ok ts'
    /\ emitted ts'
       = Some (NewEventBridgePutEvents "Sink" "" "first" "typestep"
                 (Some TestTypeStep.event)).
Proof.
  destruct (event_bus_sink "typestep" (Some TestTypeStep.event) TestTypeStep.p2
              ["first"; "second"] 1 (NewTypeStep TestTypeStep.props)
              (NewTypeStep_parallel _))
    as (node & ts' & Hl & E & He & _).
  exists node, ts'. repeat split; assumption.
Defined.

(* ===================================================================== *)
(** ** The shape of a derived name *)
(* ===================================================================== *)

Lemma be_bytes_length (n : nat) (z : Z) : length (sha256.be_bytes n z) = n.
Proof. induction n as [|n IH]; cbn; [reflexivity|]. f_equal. exact IH. Qed.

Lemma block_length (h : list Z) (bs : list byte) :
  length h = 8%nat -> length (sha256.block h bs) = 8%nat.
Proof.
  intros H. unfold sha256.block. rewrite length_map, length_combine, H. reflexivity.
Qed.

Lemma blocks_length (n : nat) : forall (h : list Z) (bs : list byte),
  length h = 8%nat -> length (sha256.blocks n h bs) = 8%nat.
Proof.
  induction n as [|n IH]; intros h bs H; cbn [sha256.blocks]; [exact H|].
  apply IH. apply block_length. exact H.
Qed.

Lemma Sum256_length (data : list byte) : length (sha256.Sum256 data) = 32%nat.
Proof.
  unfold sha256.Sum256.
  pose proof (blocks_length (Nat.div (length (sha256.pad data)) 64) sha256.init
                (sha256.pad data) eq_refl) as H.
  destruct (sha256.blocks _ _ _) as [|a [|b [|c [|d [|e [|f [|g [|h [|]]]]]]]]];
    try discriminate.
  cbn [flat_map]. rewrite !length_app, !be_bytes_length. reflexivity.
Qed.

Lemma EncodeToString_length (src : list byte) :
  String.length (hex.EncodeToString src) = (2 * length src)%nat.
Proof.
  induction src as [|b src IH]; [reflexivity|].
  cbn [hex.EncodeToString String.length length]. rewrite IH. lia.
Qed.

Lemma prefix_length (n : nat) : forall s : string,
  (n <= String.length s)%nat -> String.length (prefix n s) = n.
Proof.
  induction n as [|n IH]; intros s H; [reflexivity|].
  destruct s as [|a s]; [cbn in H; lia|].
  cbn [prefix String.length]. f_equal. apply IH. cbn in H. lia.
Qed.

Lemma digits_are_hex (b : byte) :
  is_hex (hex.digit (sha256.byteZ b / 16)) = true
  /\ is_hex (hex.digit (sha256.byteZ b mod 16)) = true.
Proof. destruct b; split; reflexivity. Qed.

Lemma EncodeToString_hex (src : list byte) :
  Forall (fun a => is_hex a = true)
    (list_ascii_of_string (hex.EncodeToString src)).
Proof.
  induction src as [|b src IH]; [constructor|].
  cbn [hex.EncodeToString list_ascii_of_string].
  destruct (digits_are_hex b). repeat constructor; assumption.
Qed.

Lemma prefix_Forall (P : ascii -> Prop) (n : nat) : forall s : string,
  Forall P (list_ascii_of_string s) ->
  Forall P (list_ascii_of_string (prefix n s)).
Proof.
  induction n as [|n IH]; intros s H; [destruct s; constructor|].
  destruct s as [|a s]; [constructor|].
  cbn [prefix list_ascii_of_string] in *.
  apply Forall_cons in H as [Ha H]. constructor; [exact Ha|apply IH; exact H].
Qed.

(** X10. The slice [[:8]] of [OnLeaveSeq] is always in range: the digest
    has 32 bytes and its encoding 64 characters. So every derived name
    has 11 characters: ["Seq"] and 8 lower-case hexadecimal digits. *)
Theorem derived_name_shape (name : string) :
  String.length (hex.EncodeToString (sha256.Sum256 (bytes_of name))) = 64%nat
  /\ exists digits,
       seq_name name = "Seq" +:+ digits
       /\ String.length digits = 8%nat
       /\ Forall (fun a => is_hex a = true) (list_ascii_of_string digits)
       /\ String.length (seq_name name) = 11%nat.
Proof.
  assert (H64 : String.length (hex.EncodeToString (sha256.Sum256 (bytes_of name)))
                = 64%nat)
    by (rewrite EncodeToString_length, Sum256_length; reflexivity).
  split; [exact H64|].
  exists (prefix 8 (hex.EncodeToString (sha256.Sum256 (bytes_of name)))).
  assert (H8 : String.length
                 (prefix 8 (hex.EncodeToString (sha256.Sum256 (bytes_of name))))
               = 8%nat) by (apply prefix_length; rewrite H64; lia).
  split; [reflexivity|]. split; [exact H8|].
  split; [apply prefix_Forall, EncodeToString_hex|].
  unfold seq_name.
  change (S (S (S (String.length
            (prefix 8 (hex.EncodeToString (sha256.Sum256 (bytes_of name)))))))
          = 11%nat).
  rewrite H8. reflexivity.
Qed.

(* ===================================================================== *)
(** ** The input path along a traversal *)
(* ===================================================================== *)

Lemma run_threads_path_witness :
  exists ts',
    duct.run (duct.trace (duct.root TestTypeStep.closed))
      (NewTypeStep TestTypeStep.no_props) = Ok ts'
    /\ args ts' = "$.Payload".
Proof.
  eexists. split; [vm_compute; reflexivity|].
  rewrite (run_threads_path (duct.trace (duct.root TestTypeStep.closed))
             (NewTypeStep TestTypeStep.no_props) _
             (NewTypeStep_parallel _)).
  - reflexivity.
  - vm_compute. reflexivity.
Defined.

(* ===================================================================== *)
(** ** The bounds of [append] *)
(* ===================================================================== *)

(** X12. [append] outside the invariant. It panics exactly when there is
    no chain level or when the names are fewer than the levels.
    Otherwise it returns: the innermost level has gained the state (it
    starts a chain if the level had none), the name at the same index
    has gained the identifier of the state, and no other level, no
    other name and no length has changed. *)
Theorem append_bounds (f : State) (ts : typeStep) :
  (stack ts = [] \/ (length (names ts) < length (stack ts))%nat ->
   append f ts = Panic "index out of range")
  /\ (stack ts <> [] -> (length (stack ts) <= length (names ts))%nat ->
      exists ts' level name,
        append f ts = Ok ts'
        /\ stack ts !! pred (length (stack ts)) = Some level
        /\ names ts !! pred (length (stack ts)) = Some name
        /\ stack ts' = <[pred (length (stack ts)) := Some (grow level f)]> (stack ts)
        /\ names ts' = <[pred (length (stack ts)) := name +:+ Id f]> (names ts)
        /\ length (stack ts') = length (stack ts)
        /\ length (names ts') = length (names ts)
        /\ (forall i, i <> pred (length (stack ts)) ->
            stack ts' !! i = stack ts !! i /\ names ts' !! i = names ts !! i)
        /\ Construct ts' = Construct ts /\ args ts' = args ts
        /\ bus ts' = bus ts /\ eventPattern ts' = eventPattern ts
        /\ DeadLetterQueue ts' = DeadLetterQueue ts).
Proof.
  assert (Hidx : forall (A : Type) (l : list A) (n : nat),
             (0 < n)%nat -> index l (Z.of_nat n - 1) = l !! pred n).
  { intros A l n Hn. unfold index.
    destruct (Z.ltb_spec (Z.of_nat n - 1) 0); [lia|]. f_equal. lia. }
  split.
  - intros H. unfold append. rewrite index_last.
    destruct (stack ts) as [|c0 st] eqn:Hs using rev_ind; [reflexivity|].
    rewrite last_snoc. destruct H as [H|H]; [destruct st; discriminate|].
    cbn [names set_stack]. rewrite Hidx by (rewrite length_app; cbn; lia).
    rewrite lookup_ge_None_2; [reflexivity|].
    rewrite length_app in *. cbn in *. lia.
  - intros Hne Hle.
    assert (Hpos : (0 < length (stack ts))%nat)
      by (destruct (stack ts); [contradiction|cbn; lia]).
    destruct (lookup_lt_is_Some_2 (stack ts) (pred (length (stack ts))))
      as [level Hlevel]; [lia|].
    destruct (lookup_lt_is_Some_2 (names ts) (pred (length (stack ts))))
      as [name Hname]; [lia|].
    exists (set_names (<[pred (length (stack ts)) := name +:+ Id f]> (names ts))
              (set_stack (<[pred (length (stack ts)) := Some (grow level f)]> (stack ts))
                 ts)), level, name.
    split.
    { unfold append. rewrite (Hidx _ (stack ts) _ Hpos), Hlevel.
      cbn [names set_stack]. rewrite (Hidx _ (names ts) _ Hpos), Hname.
      replace (Z.to_nat (Z.of_nat (length (stack ts)) - 1))
        with (pred (length (stack ts))) by lia.
      destruct level; reflexivity. }
    cbn [stack names Construct args bus eventPattern DeadLetterQueue
         set_names set_stack].
    rewrite !length_insert. repeat split; try assumption.
    + apply list_lookup_insert_ne. congruence.
    + apply list_lookup_insert_ne. congruence.
Qed.

Lemma append_bounds_witness :
  append (NewFail "F") (set_names [] (NewTypeStep TestTypeStep.props))
  = Panic "index out of range".
Proof.
  apply (proj1 (append_bounds (NewFail "F")
                  (set_names [] (NewTypeStep TestTypeStep.props)))).
  right. cbn. lia.
Defined.
